(** * ChessVar: the Atomic Chess engine of [ChessVar.py]

    A shallow embedding of class [ChessVar]: the board is the list of
    lists of one-character strings the class keeps, squares are indexed
    with Python's list indexing (negative indices wrap, anything else
    raises [IndexError]), and the methods are written in a small
    state-and-exception monad over the object's three fields.  The two
    arguments of [make_move] are Python strings, of any length and over
    all of Unicode. *)

From Stdlib Require Import ZArith Ascii String Bool Lia.
From stdpp Require Import base list.

Local Open Scope Z_scope.

(** ** Python primitives *)

Module Py.

(** The two exceptions the class can raise. *)
Inductive exn : Type := ValueError | IndexError.

(** Result of evaluating an expression: a value, a raised exception, or
    [NoFuel] when a [while] loop was cut off by the model's step bound
    (shown below never to happen). *)
Inductive res (A : Type) : Type :=
| Ret (a : A)
| Raise (e : exn)
| NoFuel.
Arguments Ret {A} a.
Arguments Raise {A} e.
Arguments NoFuel {A}.

Definition rbind {A B} (m : res A) (k : A -> res B) : res B :=
  match m with
  | Ret a => k a
  | Raise e => Raise e
  | NoFuel => NoFuel
  end.

(** [l[i]] on a Python list: indices [0 .. len-1] and [-len .. -1]. *)
Definition norm_index (len : nat) (i : Z) : option nat :=
  if (0 <=? i) && (i <? Z.of_nat len) then Some (Z.to_nat i)
  else if (- Z.of_nat len <=? i) && (i <? 0) then Some (Z.to_nat (i + Z.of_nat len))
  else None.

Definition getitem {A} (l : list A) (i : Z) : res A :=
  match norm_index (length l) i with
  | Some k => match l !! k with Some x => Ret x | None => Raise IndexError end
  | None => Raise IndexError
  end.

(** [l[i] = v]. *)
Definition setitem {A} (l : list A) (i : Z) (v : A) : res (list A) :=
  match norm_index (length l) i with
  | Some k => Ret (<[k := v]> l)
  | None => Raise IndexError
  end.

(** [range(start, stop, step)] for a non-zero step. *)
Definition range_len (start stop step : Z) : Z :=
  if 0 <? step then Z.max 0 ((stop - start + step - 1) / step)
  else Z.max 0 ((start - stop - step - 1) / (- step)).

Definition range (start stop step : Z) : list Z :=
  (fun k => start + step * Z.of_nat k) <$> seq 0 (Z.to_nat (range_len start stop step)).

(** [ord], and [str.lower], [str.islower], [str.isupper] on the
    one-character ASCII strings a board holds: the class writes only the
    letters of its initial position and the blank onto the board. *)
Definition ord (c : ascii) : Z := Z.of_nat (nat_of_ascii c).

Definition isupper (c : ascii) : bool := (65 <=? ord c) && (ord c <=? 90).
Definition islower (c : ascii) : bool := (97 <=? ord c) && (ord c <=? 122).
Definition lower (c : ascii) : ascii :=
  if isupper c then ascii_of_nat (nat_of_ascii c + 32) else c.

(** A string a caller passes in is the list of the code points of its
    characters, which may be any of Unicode; [ord] of such a character is
    the code point itself.  [str] reads a literal. *)
Definition str (s : string) : list Z := ord <$> list_ascii_of_string s.

(** [str.isdecimal] for a one-character string: the Unicode decimal
    digits, which are ['0'] to ['9'] and the digits of the other scripts,
    listed with their values by the table [decimal]. *)
Definition isdecimal (decimal : Z -> option Z) (c : Z) : bool :=
  (48 <=? c) && (c <=? 57) || match decimal c with Some _ => true | None => false end.

(** [int(s)] for a one-character string.  Python reads every Unicode
    decimal digit; anything else is a [ValueError]. *)
Definition int (decimal : Z -> option Z) (c : Z) : res Z :=
  if (48 <=? c) && (c <=? 57) then Ret (c - 48)
  else match decimal c with Some d => Ret d | None => Raise ValueError end.

(** [str.isascii]: every code point is below 128. *)
Definition isascii (s : list Z) : bool := forallb (fun c => c <? 128) s.

(** The Arabic-Indic digits U+0660 to U+0669, one of the scripts [int]
    reads. *)
Definition arabic_indic (c : Z) : option Z :=
  if (1632 <=? c) && (c <=? 1641) then Some (c - 1632) else None.

(** Truth value of a one-character string: never empty, hence true. *)
Definition truthy_char (c : ascii) : bool := true.

(** Truth value of what a function returns: [None] (fell off the end)
    and [False] are false. *)
Definition truthy (v : option bool) : bool :=
  match v with Some b => b | None => false end.

End Py.
Import Py.

Notation "'let*' x ':=' m 'in' k" := (rbind m (fun x => k))
  (at level 10, x pattern, m at level 100, k at level 200).

(** ** The object *)

Inductive turn : Type := W | B.
Inductive game_state : Type := UNFINISHED | WHITE_WON | BLACK_WON.

Definition turn_eqb (a b : turn) : bool :=
  match a, b with W, W | B, B => true | _, _ => false end.

Definition game_state_eqb (a b : game_state) : bool :=
  match a, b with
  | UNFINISHED, UNFINISHED | WHITE_WON, WHITE_WON | BLACK_WON, BLACK_WON => true
  | _, _ => false
  end.

Abbreviation board := (list (list ascii)).

Record ChessVar : Type := mkChessVar {
  _board : board;
  _current_turn : turn;
  _game_state : game_state
}.

Definition init_board : board :=
  [ ["r"; "n"; "b"; "q"; "k"; "b"; "n"; "r"];
    ["p"; "p"; "p"; "p"; "p"; "p"; "p"; "p"];
    [" "; " "; " "; " "; " "; " "; " "; " "];
    [" "; " "; " "; " "; " "; " "; " "; " "];
    [" "; " "; " "; " "; " "; " "; " "; " "];
    [" "; " "; " "; " "; " "; " "; " "; " "];
    ["P"; "P"; "P"; "P"; "P"; "P"; "P"; "P"];
    ["R"; "N"; "B"; "Q"; "K"; "B"; "N"; "R"] ]%char.

(** [__init__] *)
Definition new_game : ChessVar :=
  {| _board := init_board; _current_turn := W; _game_state := UNFINISHED |}.

Definition get_game_state (self : ChessVar) : game_state := _game_state self.

(** [sep.join(row)] for a row of one-character strings. *)
Fixpoint join (sep : ascii) (row : list ascii) : string :=
  match row with
  | [] => EmptyString
  | [c] => String c EmptyString
  | c :: rest => String c (String sep (join sep rest))
  end.

(** [print_board]: the text it writes to standard output, one line per
    row and an empty line at the end; the object is only read. *)
Definition print_board (self : ChessVar) : string :=
  foldr (fun row out => join " " row ++ String "010" out)%string
        (String "010" EmptyString) (_board self).

(** [b[r][c]] and [b[r][c] = v] *)
Definition getitem2 (b : board) (r c : Z) : res ascii :=
  let* row := getitem b r in getitem row c.

Definition setitem2 (b : board) (r c : Z) (v : ascii) : res board :=
  let* row := getitem b r in
  let* row' := setitem row c v in
  setitem b r row'.

Section Game.

(** The decimal digits that [int] reads beyond ['0'] to ['9'], with their
    values: they lie outside ASCII, and each stands for one of 0 to 9. *)
Variable unicode_decimal : Z -> option Z.
Hypothesis unicode_decimal_spec :
  forall c d, unicode_decimal c = Some d -> 128 <= c /\ 0 <= d <= 9.

(** [_convert_square_to_indices]: the unpacking [column, row = square]
    raises [ValueError] unless the string has exactly two characters;
    [ord(column)] is the code point [column]. *)
Definition _convert_square_to_indices (square : list Z) : res (Z * Z) :=
  match square with
  | [column; row] =>
      let* n := int unicode_decimal row in
      Ret (8 - n, column - ord "a")
  | _ => Raise ValueError
  end.

(** ** Move legality *)

(** A [for] loop whose body may [return False]: the result says whether
    it did. *)
Fixpoint for_return {A} (xs : list A) (body : A -> res bool) : res bool :=
  match xs with
  | [] => Ret false
  | x :: rest =>
      let* stop := body x in
      if stop then Ret true else for_return rest body
  end.

(** [b[r][c] == ' ' or b[r][c].islower() != piece.islower()] *)
Definition empty_or_enemy (b : board) (piece : ascii) (r c : Z) : res bool :=
  let* x := getitem2 b r c in
  if Ascii.eqb x " " then Ret true
  else let* y := getitem2 b r c in
       Ret (negb (Bool.eqb (islower y) (islower piece))).

(** [b[r][c] != ' ' and b[r][c].islower() != piece.islower()] *)
Definition holds_enemy (b : board) (piece : ascii) (r c : Z) : res bool :=
  let* x := getitem2 b r c in
  if Ascii.eqb x " " then Ret false
  else let* y := getitem2 b r c in
       Ret (negb (Bool.eqb (islower y) (islower piece))).

(** The walk of the bishop and of the queen's diagonal branch:
    [while row != next_row: if b[row][col] != ' ': return False; row += row_step; col += col_step].
    The result says whether the loop returned [False]. *)
Fixpoint diagonal_walk (fuel : nat) (b : board)
    (row col next_row row_step col_step : Z) : res bool :=
  if row =? next_row then Ret false
  else match fuel with
       | O => NoFuel
       | S fuel' =>
           let* x := getitem2 b row col in
           if negb (Ascii.eqb x " ") then Ret true
           else diagonal_walk fuel' b (row + row_step) (col + col_step)
                              next_row row_step col_step
       end.

(** Every index from [-len] to [len - 1] is visited at most once by a
    walk, after which [b[row]] raises. *)
Definition walk_fuel (b : board) : nat := S (2 * length b).

Definition _is_valid_move (self : ChessVar) (piece : ascii)
    (start_row start_col next_row next_col : Z) : res (option bool) :=
  let b := _board self in
  let cur := _current_turn self in
  if Ascii.eqb (lower piece) "k" then
    if (Z.abs (start_row - next_row) <=? 1) && (Z.abs (start_col - next_col) <=? 1) then
      let* ok := empty_or_enemy b piece next_row next_col in Ret (Some ok)
    else Ret (Some false)
  else if Ascii.eqb (lower piece) "p" then
    if start_col =? next_col then
      if (turn_eqb cur W && (start_row - next_row =? 1))
         || (turn_eqb cur B && (next_row - start_row =? 1)) then
        let* x := getitem2 b next_row next_col in Ret (Some (Ascii.eqb x " "))
      else if (turn_eqb cur W && (start_row =? 6) && (next_row =? 4))
              || (turn_eqb cur B && (start_row =? 1) && (next_row =? 3)) then
        let* x := getitem2 b next_row next_col in
        if Ascii.eqb x " " then
          let* y := getitem2 b ((start_row + next_row) / 2) next_col in
          Ret (Some (Ascii.eqb y " "))
        else Ret (Some false)
      else Ret (Some false)
    else if (Z.abs (start_col - next_col) =? 1)
            && ((turn_eqb cur W && (start_row - next_row =? 1))
                || (turn_eqb cur B && (next_row - start_row =? 1))) then
      let* ok := holds_enemy b piece next_row next_col in Ret (Some ok)
    else Ret (Some false)
  else if Ascii.eqb (lower piece) "r" then
    if negb (start_row =? next_row) && negb (start_col =? next_col) then Ret (Some false)
    else
      let* blocked :=
        if start_row =? next_row then
          let step := if start_col <? next_col then 1 else -1 in
          for_return (range (start_col + step) next_col step) (fun col =>
            if negb ((0 <=? col) && (col <? 8)) then Ret true
            else let* x := getitem2 b start_row col in Ret (negb (Ascii.eqb x " ")))
        else
          let step := if start_row <? next_row then 1 else -1 in
          for_return (range (start_row + step) next_row step) (fun row =>
            if negb ((0 <=? row) && (row <? 8)) then Ret true
            else let* x := getitem2 b row start_col in Ret (negb (Ascii.eqb x " "))) in
      if blocked then Ret (Some false)
      else let* ok := empty_or_enemy b piece next_row next_col in Ret (Some ok)
  else if Ascii.eqb (lower piece) "n" then
    let row_diff := Z.abs (next_row - start_row) in
    let col_diff := Z.abs (next_col - start_col) in
    if (row_diff =? 1) && (col_diff =? 2) then Ret (Some true)
    else if (row_diff =? 2) && (col_diff =? 1) then
      let* ok := empty_or_enemy b piece next_row next_col in Ret (Some ok)
    else Ret (Some false)
  else if Ascii.eqb (lower piece) "b" then
    if negb (Z.abs (start_row - next_row) =? Z.abs (start_col - next_col)) then Ret (Some false)
    else
      let row_step := if start_row <? next_row then 1 else -1 in
      let col_step := if start_col <? next_col then 1 else -1 in
      let* blocked := diagonal_walk (walk_fuel b) b (start_row + row_step) (start_col + col_step)
                                    next_row row_step col_step in
      if blocked then Ret (Some false)
      else let* ok := empty_or_enemy b piece next_row next_col in Ret (Some ok)
  else if Ascii.eqb (lower piece) "q" then
    let* verdict :=
      if start_row =? next_row then
        let step := if start_col <? next_col then 1 else -1 in
        let* blocked := for_return (range (start_col + step) next_col step) (fun col =>
          let* x := getitem2 b start_row col in Ret (negb (Ascii.eqb x " "))) in
        Ret (negb blocked)
      else if start_col =? next_col then
        let step := if start_row <? next_row then 1 else -1 in
        let* blocked := for_return (range (start_row + step) next_row step) (fun row =>
          let* x := getitem2 b row start_col in Ret (negb (Ascii.eqb x " "))) in
        Ret (negb blocked)
      else if Z.abs (start_row - next_row) =? Z.abs (start_col - next_col) then
        let row_step := if start_row <? next_row then 1 else -1 in
        let col_step := if start_col <? next_col then 1 else -1 in
        let* blocked := diagonal_walk (walk_fuel b) b (start_row + row_step) (start_col + col_step)
                                      next_row row_step col_step in
        Ret (negb blocked)
      else Ret false in
    if verdict then let* ok := empty_or_enemy b piece next_row next_col in Ret (Some ok)
    else Ret (Some false)
  else Ret None.

(** ** Methods that change the object *)

(** A method body: it runs on the object and leaves a result, or an
    exception, together with the object as it then is. *)
Definition M (A : Type) : Type := ChessVar -> res A * ChessVar.

Definition ret {A} (a : A) : M A := fun self => (Ret a, self).

Definition bind {A C} (m : M A) (k : A -> M C) : M C :=
  fun self =>
    match m self with
    | (Ret a, self') => k a self'
    | (Raise e, self') => (Raise e, self')
    | (NoFuel, self') => (NoFuel, self')
    end.

(** An expression that only reads the object. *)
Definition eval {A} (f : ChessVar -> res A) : M A := fun self => (f self, self).

Definition read {A} (f : ChessVar -> A) : M A := fun self => (Ret (f self), self).

Definition set_game_state (s : game_state) : M unit :=
  fun self => (Ret tt, {| _board := _board self;
                          _current_turn := _current_turn self;
                          _game_state := s |}).

Definition set_current_turn (t : turn) : M unit :=
  fun self => (Ret tt, {| _board := _board self;
                          _current_turn := t;
                          _game_state := _game_state self |}).

(** [self._board[r][c] = v] *)
Definition set_square (r c : Z) (v : ascii) : M unit :=
  fun self =>
    match setitem2 (_board self) r c v with
    | Ret b' => (Ret tt, {| _board := b';
                            _current_turn := _current_turn self;
                            _game_state := _game_state self |})
    | Raise e => (Raise e, self)
    | NoFuel => (NoFuel, self)
    end.

(** [self._board[r][c]] *)
Definition square (r c : Z) : M ascii := eval (fun self => getitem2 (_board self) r c).

Notation "'do' x <- m ;; k" := (bind m (fun x => k))
  (at level 10, x pattern, m at level 99, k at level 200).
Notation "m ;;; k" := (bind m (fun _ => k))
  (at level 100, right associativity).

Fixpoint for_each {A} (xs : list A) (body : A -> M unit) : M unit :=
  match xs with
  | [] => ret tt
  | x :: rest => body x ;;; for_each rest body
  end.

(** The body of the two loops of [_explosion], at square [(i, j)]. *)
Definition explode_square (i j : Z) : M unit :=
  do x <- square i j ;;
  if negb (Ascii.eqb (lower x) "p") then
    (if Ascii.eqb (lower x) "k" then
       do y <- square i j ;;
       set_game_state (if Ascii.eqb y "K" then BLACK_WON else WHITE_WON)
     else ret tt) ;;;
    set_square i j " "
  else ret tt.

Definition _explosion (row col : Z) : M unit :=
  for_each (range (Z.max 0 (row - 1)) (Z.min 8 (row + 2)) 1) (fun i =>
    for_each (range (Z.max 0 (col - 1)) (Z.min 8 (col + 2)) 1) (fun j =>
      explode_square i j)).

Definition make_move (start_square next_square : list Z) : M bool :=
  do st <- read _game_state ;;
  if negb (game_state_eqb st UNFINISHED) then ret false else
  do (start_row, start_col) <- eval (fun _ => _convert_square_to_indices start_square) ;;
  do (next_row, to_col) <- eval (fun _ => _convert_square_to_indices next_square) ;;
  if negb ((0 <=? next_row) && (next_row <? 8) && (0 <=? to_col) && (to_col <? 8))
  then ret false else
  do piece <- square start_row start_col ;;
  do cur <- read _current_turn ;;
  if negb (truthy_char piece)
     || (islower piece && turn_eqb cur W)
     || (isupper piece && turn_eqb cur B)
  then ret false else
  do valid <- eval (fun self => _is_valid_move self piece start_row start_col next_row to_col) ;;
  if truthy valid then
    do captured_piece <- square next_row to_col ;;
    set_square next_row to_col piece ;;;
    set_square start_row start_col " " ;;;
    (if negb (Ascii.eqb captured_piece " ") then
       (if Ascii.eqb (lower captured_piece) "k" || Ascii.eqb (lower piece) "k" then
          set_game_state (if Ascii.eqb (lower captured_piece) "k" then WHITE_WON else BLACK_WON)
        else ret tt) ;;;
       _explosion next_row to_col
     else ret tt) ;;;
    do st' <- read _game_state ;;
    (if game_state_eqb st' UNFINISHED then
       do cur' <- read _current_turn ;;
       set_current_turn (if turn_eqb cur' W then B else W)
     else ret tt) ;;;
    ret true
  else ret false.

(** A sequence of [make_move] calls, each on the object the previous one
    left; the results are collected. *)
Fixpoint play (self : ChessVar) (moves : list (list Z * list Z)) : list (res bool) * ChessVar :=
  match moves with
  | [] => ([], self)
  | (s, n) :: rest =>
      let '(r, self') := make_move s n self in
      let '(rs, self'') := play self' rest in
      (r :: rs, self'')
  end.

(** ** Vocabulary of the statements *)

(** The board of a game is eight rows of eight squares. *)
Definition wf_board (b : board) : Prop :=
  length b = 8%nat /\ Forall (fun row => length row = 8%nat) b.

(** The square in row [i], column [j], counted from zero. *)
Definition cell_at (b : board) (i j : nat) : option ascii :=
  match b !! i with
  | Some row => row !! j
  | None => None
  end.

(** The board with square [(i, j)] overwritten. *)
Definition put (b : board) (i j : nat) (v : ascii) : board :=
  alter (fun row => <[j := v]> row) i b.

Definition with_board (self : ChessVar) (b : board) : ChessVar :=
  {| _board := b; _current_turn := _current_turn self; _game_state := _game_state self |}.

Definition with_turn (self : ChessVar) (t : turn) : ChessVar :=
  {| _board := _board self; _current_turn := t; _game_state := _game_state self |}.

Definition with_state (self : ChessVar) (s : game_state) : ChessVar :=
  {| _board := _board self; _current_turn := _current_turn self; _game_state := s |}.

Definition opposite (t : turn) : turn := if turn_eqb t W then B else W.

(** What [_explosion] does to one square and to the outcome when it
    visits a square holding [x]. *)
Definition is_pawn (x : ascii) : bool := Ascii.eqb (lower x) "p".
Definition is_king (x : ascii) : bool := Ascii.eqb (lower x) "k".

Definition blast (x : ascii) : ascii := if negb (is_pawn x) then " "%char else x.

Definition king_verdict (o : game_state) (x : ascii) : game_state :=
  if negb (is_pawn x) && is_king x
  then (if Ascii.eqb x "K" then BLACK_WON else WHITE_WON)
  else o.

(** The squares [_explosion row col] visits, in the order of its loops. *)
Definition blast_zone (row col : Z) : list (Z * Z) :=
  i ← range (Z.max 0 (row - 1)) (Z.min 8 (row + 2)) 1;
  j ← range (Z.max 0 (col - 1)) (Z.min 8 (col + 2)) 1;
  [(i, j)].

(** The clipped neighbourhood of the specification: rows
    [max(0,r-1) .. min(7,r+1)], columns [max(0,c-1) .. min(7,c+1)]. *)
Definition in_radius (row col i j : Z) : Prop :=
  Z.max 0 (row - 1) <= i <= Z.min 7 (row + 1) /\
  Z.max 0 (col - 1) <= j <= Z.min 7 (col + 1).

(** The content of a square, blank when there is no such square. *)
Definition content (b : board) (p : Z * Z) : ascii :=
  match getitem2 b p.1 p.2 with
  | Ret x => x
  | _ => " "%char
  end.

(** The object after [_explosion], started on [self0], has visited
    the squares [cells] in that order. *)
Definition exploded (self0 : ChessVar) (cells : list (Z * Z)) (self : ChessVar) : Prop :=
  wf_board (_board self) /\
  _current_turn self = _current_turn self0 /\
  (forall i j, 0 <= i < 8 -> 0 <= j < 8 ->
     getitem2 (_board self) i j =
       Ret (if bool_decide ((i, j) ∈ cells)
            then blast (content (_board self0) (i, j))
            else content (_board self0) (i, j))) /\
  _game_state self = foldl king_verdict (_game_state self0) (content (_board self0) <$> cells).

(** The part of [make_move] that runs once the move was found legal. *)
Definition move_body (piece : ascii) (start_row start_col next_row to_col : Z) : M bool :=
  do captured_piece <- square next_row to_col ;;
  set_square next_row to_col piece ;;;
  set_square start_row start_col " " ;;;
  (if negb (Ascii.eqb captured_piece " ") then
     (if Ascii.eqb (lower captured_piece) "k" || Ascii.eqb (lower piece) "k" then
        set_game_state (if Ascii.eqb (lower captured_piece) "k" then WHITE_WON else BLACK_WON)
      else ret tt) ;;;
     _explosion next_row to_col
   else ret tt) ;;;
  do st' <- read _game_state ;;
  (if game_state_eqb st' UNFINISHED then
     do cur' <- read _current_turn ;;
     set_current_turn (if turn_eqb cur' W then B else W)
   else ret tt) ;;;
  ret true.

(** The piece lifted from square [(i0, j0)] and put down on [(i1, j1)]. *)
Definition relocate (self : ChessVar) (piece : ascii) (i0 j0 i1 j1 : nat) : ChessVar :=
  with_board self (put (put (_board self) i1 j1 piece) i0 j0 " ").

(** The outcome [make_move] records for a capture, before the explosion. *)
Definition capture_verdict (o : game_state) (captured piece : ascii) : game_state :=
  if is_king captured || is_king piece
  then (if is_king captured then WHITE_WON else BLACK_WON)
  else o.

(** The turn passes on while the game is unfinished. *)
Definition finish_turn (self : ChessVar) : ChessVar :=
  if game_state_eqb (_game_state self) UNFINISHED
  then with_turn self (opposite (_current_turn self))
  else self.

(** [final] is [self] with the move of [piece] from square [(i0, j0)]
    to square [(i1, j1)] carried out in full: relocation, the explosion
    if the destination was occupied, and the passing of the turn. *)
Definition applied (self : ChessVar) (piece : ascii) (i0 j0 i1 j1 : nat)
    (final : ChessVar) : Prop :=
  exists captured after,
    cell_at (_board self) i1 j1 = Some captured /\
    (if Ascii.eqb captured " "
     then after = relocate self piece i0 j0 i1 j1
     else _explosion (Z.of_nat i1) (Z.of_nat j1)
            (with_state (relocate self piece i0 j0 i1 j1)
                        (capture_verdict (_game_state self) captured piece))
          = (Ret tt, after)) /\
    final = finish_turn after.

(** Square notation.  [parses]: the strings [_convert_square_to_indices]
    accepts, two characters of which the second is a decimal digit of any
    script.  [well_formed_square]: the notation of the specification, a
    file letter ['a'] to ['h'] followed by a rank digit ['1'] to ['8'].
    [on_board]: indices that name a square of the board. *)
Definition parses (square : list Z) : bool :=
  match square with
  | [_; row] => isdecimal unicode_decimal row
  | _ => false
  end.

Definition well_formed_square (square : list Z) : bool :=
  match square with
  | [column; row] =>
      (ord "a" <=? column) && (column <=? ord "h")
      && (ord "1" <=? row) && (row <=? ord "8")
  | _ => false
  end.

Definition on_board (r c : Z) : Prop := 0 <= r < 8 /\ 0 <= c < 8.

(** How many squares of the board hold the letter [x]. *)
Definition holds (x c : ascii) : nat := if Ascii.eqb c x then 1%nat else 0%nat.

Definition count_in_row (x : ascii) (row : list ascii) : nat :=
  sum_list (holds x <$> row).

Definition count_on_board (x : ascii) (b : board) : nat :=
  sum_list (count_in_row x <$> b).

(** The games that [make_move] calls lead to from the initial position. *)
Inductive reachable : ChessVar -> Prop :=
| reach_new : reachable new_game
| reach_move self s n : reachable self -> reachable (snd (make_move s n self)).

(** The pawn rule in the words of the specification: forward only, the
    direction set by the pawn's color (White decreases the row, Black
    increases it); a single step onto an empty square; a double step from
    the starting rank (row 6 for White, row 1 for Black) over an empty
    square onto an empty square; a capture one column aside and one row
    forward onto an opposing piece. *)
Definition color_of (piece : ascii) : turn := if islower piece then B else W.

Definition forward (side : turn) : Z := match side with W => -1 | B => 1 end.

Definition starting_rank (side : turn) : Z := match side with W => 6 | B => 1 end.

Definition empty_square (b : board) (r c : Z) : bool := Ascii.eqb (content b (r, c)) " ".

Definition opposing_piece (b : board) (piece : ascii) (r c : Z) : bool :=
  negb (Ascii.eqb (content b (r, c)) " ")
  && negb (Bool.eqb (islower (content b (r, c))) (islower piece)).

Definition pawn_rule (b : board) (piece : ascii) (start_row start_col next_row next_col : Z) : bool :=
  let side := color_of piece in
  ((start_col =? next_col) && (next_row =? start_row + forward side)
   && empty_square b next_row next_col)
  || ((start_col =? next_col) && (start_row =? starting_rank side)
      && (next_row =? start_row + 2 * forward side)
      && empty_square b (start_row + forward side) next_col
      && empty_square b next_row next_col)
  || ((Z.abs (start_col - next_col) =? 1) && (next_row =? start_row + forward side)
      && opposing_piece b piece next_row next_col).

(** The destination is free for [piece]: the square is blank or holds a
    letter of the other case. *)
Definition target_free (b : board) (piece : ascii) (r c : Z) : Prop :=
  exists x, getitem2 b r c = Ret x /\ (x = " "%char \/ islower x <> islower piece).

(** Every square strictly between origin and destination, along the
    row, the column or the diagonal that joins them, is blank. *)
Definition path_clear (b : board) (start_row start_col next_row next_col : Z) : Prop :=
  forall t, 0 < t < Z.max (Z.abs (next_row - start_row)) (Z.abs (next_col - start_col)) ->
    getitem2 b (start_row + t * Z.sgn (next_row - start_row))
               (start_col + t * Z.sgn (next_col - start_col)) = Ret " "%char.

(** The movement pattern of each piece letter, as [_is_valid_move] tests
    it; a pawn's direction is that of the side to move. *)
Definition piece_geometry (cur : turn) (piece : ascii)
    (start_row start_col next_row next_col : Z) : Prop :=
  (lower piece = "k"%char /\
   Z.abs (start_row - next_row) <= 1 /\ Z.abs (start_col - next_col) <= 1) \/
  (lower piece = "p"%char /\ Z.abs (start_col - next_col) <= 1 /\
   ((cur = W /\ (start_row - next_row = 1 \/
                  (start_col = next_col /\ start_row = 6 /\ next_row = 4))) \/
    (cur = B /\ (next_row - start_row = 1 \/
                  (start_col = next_col /\ start_row = 1 /\ next_row = 3))))) \/
  (lower piece = "r"%char /\ (start_row = next_row \/ start_col = next_col)) \/
  (lower piece = "n"%char /\
   ((Z.abs (next_row - start_row) = 1 /\ Z.abs (next_col - start_col) = 2) \/
    (Z.abs (next_row - start_row) = 2 /\ Z.abs (next_col - start_col) = 1))) \/
  (lower piece = "b"%char /\
   Z.abs (start_row - next_row) = Z.abs (start_col - next_col)) \/
  (lower piece = "q"%char /\
   (start_row = next_row \/ start_col = next_col \/
    Z.abs (start_row - next_row) = Z.abs (start_col - next_col))).

(** The thirteen one-character strings of the initial board. *)
Definition piece_letter (c : ascii) : bool :=
  existsb (Ascii.eqb c) (list_ascii_of_string " rnbqkpRNBQKP").

(** ** Indexing *)

Section Indexing.
Context {A : Type}.
Implicit Types (l : list A) (i : Z) (k : nat).

Lemma norm_index_lt len i k : norm_index len i = Some k -> (k < len)%nat.
Proof.
  unfold norm_index.
  destruct ((0 <=? i) && (i <? Z.of_nat len)) eqn:E1.
  - intros [= <-]. apply andb_true_iff in E1 as [? ?]. lia.
  - destruct ((- Z.of_nat len <=? i) && (i <? 0)) eqn:E2; [|discriminate].
    intros [= <-]. apply andb_true_iff in E2 as [? ?]. lia.
Qed.

Lemma norm_index_nonneg len i :
  0 <= i < Z.of_nat len -> norm_index len i = Some (Z.to_nat i).
Proof.
  intros H. unfold norm_index.
  replace ((0 <=? i) && (i <? Z.of_nat len)) with true; [done|].
  symmetry. apply andb_true_iff. lia.
Qed.

Lemma norm_index_neg len i :
  - Z.of_nat len <= i < 0 -> norm_index len i = Some (Z.to_nat (i + Z.of_nat len)).
Proof.
  intros H. unfold norm_index.
  replace ((0 <=? i) && (i <? Z.of_nat len)) with false
    by (symmetry; apply andb_false_iff; lia).
  replace ((- Z.of_nat len <=? i) && (i <? 0)) with true; [done|].
  symmetry. apply andb_true_iff. lia.
Qed.

Lemma norm_index_valid len i :
  - Z.of_nat len <= i < Z.of_nat len -> exists k, norm_index len i = Some k.
Proof.
  intros H. destruct (Z.neg_nonneg_cases i).
  - rewrite norm_index_neg by lia. eauto.
  - rewrite norm_index_nonneg by lia. eauto.
Qed.

Lemma norm_index_of_nat len k :
  (k < len)%nat -> norm_index len (Z.of_nat k) = Some k.
Proof. intros H. rewrite norm_index_nonneg by lia. by rewrite Nat2Z.id. Qed.

Lemma getitem_Ret l i x :
  getitem l i = Ret x <-> exists k, norm_index (length l) i = Some k /\ l !! k = Some x.
Proof.
  unfold getitem. split.
  - destruct (norm_index (length l) i) as [k|]; [|discriminate].
    destruct (l !! k) eqn:E; [|discriminate]. intros [= ->]. eauto.
  - intros (k & -> & ->). done.
Qed.

Lemma getitem_not_NoFuel l i : getitem l i <> NoFuel.
Proof.
  unfold getitem. destruct (norm_index (length l) i) as [k|]; [|discriminate].
  destruct (l !! k); discriminate.
Qed.

Lemma getitem_Raise l i e : getitem l i = Raise e -> e = IndexError.
Proof.
  unfold getitem. destruct (norm_index (length l) i) as [k|]; [|congruence].
  destruct (l !! k); congruence.
Qed.

Lemma getitem_None l i :
  norm_index (length l) i = None -> getitem l i = Raise IndexError.
Proof. unfold getitem. by intros ->. Qed.

Lemma setitem_Ret l i v l' :
  setitem l i v = Ret l' <-> exists k, norm_index (length l) i = Some k /\ l' = <[k := v]> l.
Proof.
  unfold setitem. split.
  - destruct (norm_index (length l) i) as [k|]; [|discriminate].
    intros [= <-]. eauto.
  - intros (k & -> & ->). done.
Qed.
End Indexing.

(** ** Squares of a well-formed board *)

Lemma wf_board_row b i row : wf_board b -> b !! i = Some row -> length row = 8%nat.
Proof.
  intros [_ Hrows] Hi. rewrite Forall_forall in Hrows.
  apply Hrows. apply list_elem_of_lookup. eauto.
Qed.

Lemma cell_at_is_Some b i j :
  wf_board b -> (i < 8)%nat -> (j < 8)%nat -> exists x, cell_at b i j = Some x.
Proof.
  intros Hwf Hi Hj. unfold cell_at.
  assert (is_Some (b !! i)) as [row Hrow].
  { apply lookup_lt_is_Some_2. destruct Hwf; lia. }
  rewrite Hrow. apply lookup_lt_is_Some_2.
  rewrite (wf_board_row b i row); auto.
Qed.

Lemma cell_at_lt b i j x : wf_board b -> cell_at b i j = Some x -> (i < 8)%nat /\ (j < 8)%nat.
Proof.
  intros Hwf. unfold cell_at. destruct (b !! i) as [row|] eqn:Hrow; [|discriminate].
  intros Hx. split.
  - destruct Hwf as [<- _]. apply lookup_lt_is_Some_1. eauto.
  - rewrite <- (wf_board_row b i row Hwf Hrow). apply lookup_lt_is_Some_1. eauto.
Qed.

Lemma getitem2_Ret b r c x :
  wf_board b ->
  getitem2 b r c = Ret x <->
  exists i j, norm_index 8 r = Some i /\ norm_index 8 c = Some j /\ cell_at b i j = Some x.
Proof.
  intros Hwf. unfold getitem2, cell_at. split.
  - destruct (getitem b r) as [row| |] eqn:Hr; simpl; try discriminate.
    apply getitem_Ret in Hr as (i & Hi & Hrow).
    intros (j & Hj & Hx)%getitem_Ret.
    rewrite (wf_board_row b i row Hwf Hrow) in Hj.
    destruct Hwf as [Hlen _]. rewrite Hlen in Hi.
    exists i, j. by rewrite Hrow.
  - intros (i & j & Hi & Hj & Hx).
    destruct (b !! i) as [row|] eqn:Hrow; [|discriminate].
    assert (getitem b r = Ret row) as ->.
    { apply getitem_Ret. exists i. destruct Hwf as [-> _]. done. }
    simpl. apply getitem_Ret. exists j.
    by rewrite (wf_board_row b i row Hwf Hrow).
Qed.

Lemma getitem2_not_NoFuel b r c : getitem2 b r c <> NoFuel.
Proof.
  unfold getitem2. destruct (getitem b r) eqn:E; simpl; try discriminate.
  - apply getitem_not_NoFuel.
  - by apply getitem_not_NoFuel in E.
Qed.

Lemma getitem2_in_range b r c i j :
  wf_board b -> norm_index 8 r = Some i -> norm_index 8 c = Some j ->
  exists x, cell_at b i j = Some x /\ getitem2 b r c = Ret x.
Proof.
  intros Hwf Hi Hj.
  assert (exists x, cell_at b i j = Some x) as [x Hx].
  { apply cell_at_is_Some; [done | by eapply norm_index_lt | by eapply norm_index_lt]. }
  exists x. split; [done|]. apply getitem2_Ret; eauto.
Qed.

Lemma setitem2_put b r c v i j :
  wf_board b -> norm_index 8 r = Some i -> norm_index 8 c = Some j ->
  setitem2 b r c v = Ret (put b i j v).
Proof.
  intros Hwf Hi Hj. unfold setitem2, put.
  assert (is_Some (b !! i)) as [row Hrow].
  { apply lookup_lt_is_Some_2. destruct Hwf as [-> _]. by eapply norm_index_lt. }
  assert (getitem b r = Ret row) as ->.
  { apply getitem_Ret. exists i. destruct Hwf as [-> _]. done. }
  simpl. unfold setitem at 1. rewrite (wf_board_row b i row Hwf Hrow), Hj. simpl.
  unfold setitem. destruct Hwf as [-> _]. rewrite Hi. f_equal.
  apply list_eq. intros k. destruct (decide (i = k)) as [<-|Hne].
  - rewrite list_lookup_insert_eq by (by apply lookup_lt_is_Some_1; eauto).
    by rewrite list_lookup_alter_eq, Hrow.
  - by rewrite list_lookup_insert_ne, list_lookup_alter_ne.
Qed.

Lemma wf_board_put b i j v : wf_board b -> wf_board (put b i j v).
Proof.
  intros [Hlen Hrows]. split.
  - unfold put. by rewrite length_alter.
  - unfold put. apply Forall_alter; [done|].
    intros row Hrow Hl. by rewrite length_insert.
Qed.

Lemma cell_at_put_eq b i j v x :
  cell_at b i j = Some x -> cell_at (put b i j v) i j = Some v.
Proof.
  unfold cell_at, put. rewrite list_lookup_alter_eq.
  destruct (b !! i) as [row|]; [|discriminate]. simpl.
  intros Hx. apply list_lookup_insert_eq. apply lookup_lt_is_Some_1. eauto.
Qed.

Lemma cell_at_put_ne b i j v i' j' :
  (i, j) <> (i', j') -> cell_at (put b i j v) i' j' = cell_at b i' j'.
Proof.
  intros Hne. unfold cell_at, put.
  destruct (decide (i = i')) as [<-|Hi].
  - rewrite list_lookup_alter_eq. destruct (b !! i) as [row|]; [|done]. simpl.
    apply list_lookup_insert_ne. congruence.
  - by rewrite list_lookup_alter_ne.
Qed.

Lemma put_same b i j x : cell_at b i j = Some x -> put b i j x = b.
Proof.
  unfold cell_at, put. intros H. apply list_eq. intros k.
  destruct (decide (i = k)) as [<-|Hne].
  - rewrite list_lookup_alter_eq. destruct (b !! i) as [row|]; [|done]. simpl.
    by rewrite list_insert_id.
  - by rewrite list_lookup_alter_ne.
Qed.

(** ** Ranges *)

Lemma range_step_1 a b :
  range a b 1 = (fun k => a + Z.of_nat k) <$> seq 0 (Z.to_nat (b - a)).
Proof.
  unfold range, range_len. change (0 <? 1) with true. cbv iota.
  replace (b - a + 1 - 1) with (b - a) by lia. rewrite Z.div_1_r.
  replace (Z.to_nat (Z.max 0 (b - a))) with (Z.to_nat (b - a)) by lia.
  apply list_fmap_ext. intros _ k _. lia.
Qed.

Lemma elem_of_range_1 a b x : x ∈ range a b 1 <-> a <= x < b.
Proof.
  rewrite range_step_1, list_elem_of_fmap. split.
  - intros (k & -> & Hk%elem_of_seq). lia.
  - intros H. exists (Z.to_nat (x - a)). split; [lia|]. apply elem_of_seq. lia.
Qed.

Lemma NoDup_range_1 a b : NoDup (range a b 1).
Proof.
  rewrite range_step_1. apply NoDup_fmap_2; [|apply NoDup_seq].
  intros k1 k2 H. lia.
Qed.

Lemma elem_of_blast_zone row col i j :
  (i, j) ∈ blast_zone row col <-> in_radius row col i j.
Proof.
  unfold blast_zone, in_radius. rewrite list_elem_of_bind. split.
  - intros (i' & (j' & Hij%list_elem_of_singleton & Hj%elem_of_range_1)%list_elem_of_bind
             & Hi%elem_of_range_1).
    injection Hij as -> ->. lia.
  - intros [Hi Hj]. exists i. split; [|apply elem_of_range_1; lia].
    apply list_elem_of_bind. exists j. split; [by apply list_elem_of_singleton|].
    apply elem_of_range_1. lia.
Qed.

Lemma getitem2_wf b r c :
  wf_board b ->
  getitem2 b r c =
    match norm_index 8 r, norm_index 8 c with
    | Some i, Some j =>
        match cell_at b i j with Some x => Ret x | None => Raise IndexError end
    | _, _ => Raise IndexError
    end.
Proof.
  intros Hwf.
  destruct (norm_index 8 r) as [i|] eqn:Hi.
  - destruct (norm_index 8 c) as [j|] eqn:Hj.
    + destruct (getitem2_in_range b r c i j Hwf Hi Hj) as (x & -> & ->). done.
    + unfold getitem2. destruct (getitem b r) as [row| |] eqn:Hr; simpl; try done.
      * apply getitem_Ret in Hr as (k & _ & Hrow).
        apply getitem_None. by rewrite (wf_board_row b k row Hwf Hrow).
      * by rewrite (getitem_Raise _ _ _ Hr).
      * by apply getitem_not_NoFuel in Hr.
  - unfold getitem2. rewrite getitem_None; [done|]. by destruct Hwf as [-> _].
Qed.

Lemma getitem2_put_eq b r c i j v :
  wf_board b -> norm_index 8 r = Some i -> norm_index 8 c = Some j ->
  getitem2 (put b i j v) r c = Ret v.
Proof.
  intros Hwf Hi Hj. rewrite getitem2_wf by by apply wf_board_put.
  rewrite Hi, Hj.
  destruct (getitem2_in_range b r c i j Hwf Hi Hj) as (x & Hx & _).
  by rewrite (cell_at_put_eq b i j v x).
Qed.

Lemma getitem2_put_ne b r c i j v :
  wf_board b ->
  (forall i' j', norm_index 8 r = Some i' -> norm_index 8 c = Some j' -> (i, j) <> (i', j')) ->
  getitem2 (put b i j v) r c = getitem2 b r c.
Proof.
  intros Hwf Hne. rewrite !getitem2_wf by (done || by apply wf_board_put).
  destruct (norm_index 8 r) as [i'|]; [|done].
  destruct (norm_index 8 c) as [j'|]; [|done].
  rewrite cell_at_put_ne; [done|]. by apply Hne.
Qed.

(** ** The explosion *)

Lemma set_square_put self r c v i j :
  wf_board (_board self) -> norm_index 8 r = Some i -> norm_index 8 c = Some j ->
  set_square r c v self = (Ret tt, with_board self (put (_board self) i j v)).
Proof.
  intros Hwf Hi Hj. unfold set_square.
  by rewrite (setitem2_put _ r c v i j Hwf Hi Hj).
Qed.

Lemma king_is_not_pawn x : is_king x = true -> is_pawn x = false.
Proof.
  unfold is_king, is_pawn. intros ->%Ascii.eqb_eq. done.
Qed.

Lemma explode_square_spec self r c i j x :
  wf_board (_board self) -> norm_index 8 r = Some i -> norm_index 8 c = Some j ->
  cell_at (_board self) i j = Some x ->
  explode_square r c self =
    (Ret tt, {| _board := put (_board self) i j (blast x);
                _current_turn := _current_turn self;
                _game_state := king_verdict (_game_state self) x |}).
Proof.
  intros Hwf Hi Hj Hx.
  assert (getitem2 (_board self) r c = Ret x) as Hget by (apply getitem2_Ret; eauto).
  unfold explode_square, bind, square, eval. rewrite Hget.
  unfold blast, king_verdict. fold (is_pawn x). fold (is_king x).
  destruct (is_pawn x) eqn:Hp; simpl.
  - unfold ret. destruct self as [b t o]; simpl in *. by rewrite put_same.
  - destruct (is_king x) eqn:Hk; simpl.
    + rewrite Hget.
      unfold set_game_state. simpl.
      by rewrite (set_square_put _ r c " " i j).
    + unfold ret. rewrite (set_square_put _ r c " " i j) by done.
      by destruct self.
Qed.

Lemma for_each_inv {A} (body : A -> M unit) (R : list A -> ChessVar -> Prop) xs self :
  R [] self ->
  (forall pre x post s, xs = pre ++ x :: post -> R pre s ->
     exists s', body x s = (Ret tt, s') /\ R (pre ++ [x]) s') ->
  exists self', for_each xs body self = (Ret tt, self') /\ R xs self'.
Proof.
  intros H0 Hstep.
  assert (forall rest pre s, xs = pre ++ rest -> R pre s ->
            exists s', for_each rest body s = (Ret tt, s') /\ R xs s') as Hgen.
  { induction rest as [|x rest IH]; intros pre s Hxs HR.
    - exists s. rewrite app_nil_r in Hxs. subst. done.
    - destruct (Hstep pre x rest s Hxs HR) as (s1 & Hb & HR1).
      destruct (IH (pre ++ [x]) s1) as (s2 & Hf & HR2); [by rewrite <- app_assoc | done |].
      exists s2. split; [|done]. simpl. unfold bind. by rewrite Hb. }
  by apply (Hgen xs [] self).
Qed.

Lemma exploded_start self : wf_board (_board self) -> exploded self [] self.
Proof.
  intros Hwf. split; [done|]. split; [done|]. split; [|done].
  intros i j Hi Hj. simpl.
  destruct (getitem2_in_range (_board self) i j (Z.to_nat i) (Z.to_nat j) Hwf)
    as (x & _ & Hx); [by apply norm_index_nonneg..|].
  unfold content. simpl. by rewrite Hx.
Qed.

Lemma exploded_step self0 cells s i j :
  exploded self0 cells s -> 0 <= i < 8 -> 0 <= j < 8 -> (i, j) ∉ cells ->
  exists s', explode_square i j s = (Ret tt, s') /\ exploded self0 (cells ++ [(i, j)]) s'.
Proof.
  intros (Hwf & Ht & Hb & Ho) Hi Hj Hnew.
  pose proof (Hb i j Hi Hj) as Hget. rewrite bool_decide_eq_false_2 in Hget by done.
  set (x := content (_board self0) (i, j)) in *.
  assert (norm_index 8 i = Some (Z.to_nat i)) as Hni by by apply norm_index_nonneg.
  assert (norm_index 8 j = Some (Z.to_nat j)) as Hnj by by apply norm_index_nonneg.
  assert (cell_at (_board s) (Z.to_nat i) (Z.to_nat j) = Some x) as Hx.
  { apply getitem2_Ret in Hget as (i' & j' & Hi' & Hj' & Hc); [|done]. congruence. }
  eexists. split; [by apply (explode_square_spec s i j (Z.to_nat i) (Z.to_nat j) x)|].
  split; [|split; [|split]]; simpl.
  - by apply wf_board_put.
  - done.
  - intros i2 j2 Hi2 Hj2. destruct (decide ((i2, j2) = (i, j))) as [[= -> ->]|Hne].
    + rewrite getitem2_put_eq by done.
      rewrite bool_decide_eq_true_2; [done|]. apply elem_of_app. right. by left.
    + rewrite getitem2_put_ne.
      * rewrite Hb by done.
        rewrite (bool_decide_ext ((i2, j2) ∈ cells ++ [(i, j)]) ((i2, j2) ∈ cells)); [done|].
        rewrite elem_of_app, list_elem_of_singleton. tauto.
      * done.
      * intros i' j'. rewrite !norm_index_nonneg by done. intros [= <-] [= <-] [= E1 E2].
        apply Hne. f_equal; lia.
  - by rewrite fmap_app, foldl_app, Ho.
Qed.

Lemma explosion_exploded self row col :
  wf_board (_board self) -> 0 <= row < 8 -> 0 <= col < 8 ->
  exists self', _explosion row col self = (Ret tt, self') /\
                exploded self (blast_zone row col) self'.
Proof.
  intros Hwf Hrow Hcol. unfold _explosion, blast_zone.
  set (rows := range (Z.max 0 (row - 1)) (Z.min 8 (row + 2)) 1).
  set (cols := range (Z.max 0 (col - 1)) (Z.min 8 (col + 2)) 1).
  apply (for_each_inv _ (fun pre s => exploded self (i ← pre; j ← cols; [(i, j)]) s)).
  { by apply exploded_start. }
  intros pre i post s Hrows Hs.
  assert (NoDup rows) as Hnd by apply NoDup_range_1.
  assert (i ∈ rows) as Hi.
  { rewrite Hrows. apply elem_of_app. right. by left. }
  apply elem_of_range_1 in Hi.
  rewrite Hrows in Hnd. apply NoDup_app in Hnd as (_ & Hpre & _).
  rewrite bind_app. simpl. rewrite app_nil_r.
  apply (for_each_inv _ (fun prej s' =>
           exploded self ((i' ← pre; j ← cols; [(i', j)]) ++ (j ← prej; [(i, j)])) s')).
  { simpl. by rewrite app_nil_r. }
  intros prej j postj s' Hcols Hs'.
  assert (NoDup cols) as Hndc by apply NoDup_range_1.
  assert (j ∈ cols) as Hj.
  { rewrite Hcols. apply elem_of_app. right. by left. }
  apply elem_of_range_1 in Hj.
  rewrite Hcols in Hndc. apply NoDup_app in Hndc as (_ & Hprej & _).
  rewrite bind_app. simpl. rewrite app_assoc.
  apply exploded_step; [done | lia | lia |].
  rewrite elem_of_app, !list_elem_of_bind.
  intros [(i' & (j' & [= -> ->]%list_elem_of_singleton & _)%list_elem_of_bind & Hin)
         |(j' & [= ->]%list_elem_of_singleton & Hin)].
  - apply (Hpre i' Hin). by left.
  - apply (Hprej j' Hin). by left.
Qed.

(** ** Piece letters *)

Lemma is_king_iff x : is_king x = true <-> x = "k"%char \/ x = "K"%char.
Proof.
  destruct x as [[] [] [] [] [] [] [] []]; vm_compute; split;
    first [ discriminate | (intros _; auto; fail) | (intros [H|H]; discriminate H) ].
Qed.

Lemma is_pawn_iff x : is_pawn x = true <-> x = "p"%char \/ x = "P"%char.
Proof.
  destruct x as [[] [] [] [] [] [] [] []]; vm_compute; split;
    first [ discriminate | (intros _; auto; fail) | (intros [H|H]; discriminate H) ].
Qed.

Lemma king_verdict_other o x : is_king x = false -> king_verdict o x = o.
Proof. unfold king_verdict. intros ->. by rewrite andb_false_r. Qed.

Lemma foldl_verdict_no_king o xs :
  (forall x, x ∈ xs -> is_king x = false) -> foldl king_verdict o xs = o.
Proof.
  revert o. induction xs as [|x xs IH]; intros o H; [done|]. simpl.
  rewrite king_verdict_other by (apply H; by left).
  apply IH. intros y Hy. apply H. by right.
Qed.

Lemma foldl_verdict_only o xs k :
  is_king k = true ->
  (forall x, x ∈ xs -> is_king x = true -> x = k) ->
  foldl king_verdict o xs = king_verdict o k \/
  (foldl king_verdict o xs = o /\ k ∉ xs).
Proof.
  intros Hk. revert o. induction xs as [|x xs IH]; intros o H.
  - right. split; [done|]. by apply not_elem_of_nil.
  - simpl. destruct (is_king x) eqn:Hx.
    + assert (x = k) as -> by (apply H; [by left | done]).
      left. destruct (IH (king_verdict o k)) as [->| [-> _]].
      * intros y Hy. apply H. by right.
      * unfold king_verdict. rewrite Hk, (king_is_not_pawn k Hk). done.
      * done.
    + rewrite king_verdict_other by done.
      destruct (IH o) as [->| [-> Hn]].
      * intros y Hy. apply H. by right.
      * by left.
      * right. split; [done|]. intros [->|Hin]%elem_of_cons; [congruence | done].
Qed.

(** ** The legality check always yields a verdict or an exception *)

Lemma rbind_total {A C} (m : res A) (k : A -> res C) :
  m <> NoFuel -> (forall a, k a <> NoFuel) -> rbind m k <> NoFuel.
Proof. destruct m; simpl; intros Hm Hk; [apply Hk | discriminate | done]. Qed.

Lemma for_return_total {A} (xs : list A) body :
  (forall x, body x <> NoFuel) -> for_return xs body <> NoFuel.
Proof.
  intros Hb. induction xs as [|x xs IH]; simpl; [discriminate|].
  apply rbind_total; [apply Hb|]. intros stop. destruct stop; [discriminate | exact IH].
Qed.

Lemma diagonal_walk_total_up fuel b row col next_row col_step :
  (1 <= fuel)%nat ->
  row < - Z.of_nat (length b) \/ Z.of_nat (length b) - row < Z.of_nat fuel ->
  diagonal_walk fuel b row col next_row 1 col_step <> NoFuel.
Proof.
  revert row col. induction fuel as [|fuel IH]; intros row col Hf Hrow; [lia|].
  simpl. destruct (row =? next_row); [discriminate|].
  unfold getitem2.
  destruct (getitem b row) as [r| |] eqn:Hr; simpl; try discriminate.
  - apply getitem_Ret in Hr as (k & Hk & _).
    assert (- Z.of_nat (length b) <= row < Z.of_nat (length b)) as Hin.
    { unfold norm_index in Hk.
      destruct ((0 <=? row) && (row <? Z.of_nat (length b))) eqn:E1.
      - apply andb_true_iff in E1. lia.
      - destruct ((- Z.of_nat (length b) <=? row) && (row <? 0)) eqn:E2; [|done].
        apply andb_true_iff in E2. lia. }
    destruct (getitem r col) as [x| |] eqn:Hx; simpl; try discriminate.
    + destruct (negb (Ascii.eqb x " ")); [discriminate|].
      apply IH; lia.
    + by apply getitem_not_NoFuel in Hx.
  - by apply getitem_not_NoFuel in Hr.
Qed.

Lemma diagonal_walk_total_down fuel b row col next_row col_step :
  (1 <= fuel)%nat ->
  Z.of_nat (length b) <= row \/ row + Z.of_nat (length b) + 1 < Z.of_nat fuel ->
  diagonal_walk fuel b row col next_row (-1) col_step <> NoFuel.
Proof.
  revert row col. induction fuel as [|fuel IH]; intros row col Hf Hrow; [lia|].
  simpl. destruct (row =? next_row); [discriminate|].
  unfold getitem2.
  destruct (getitem b row) as [r| |] eqn:Hr; simpl; try discriminate.
  - apply getitem_Ret in Hr as (k & Hk & _).
    assert (- Z.of_nat (length b) <= row < Z.of_nat (length b)) as Hin.
    { unfold norm_index in Hk.
      destruct ((0 <=? row) && (row <? Z.of_nat (length b))) eqn:E1.
      - apply andb_true_iff in E1. lia.
      - destruct ((- Z.of_nat (length b) <=? row) && (row <? 0)) eqn:E2; [|done].
        apply andb_true_iff in E2. lia. }
    destruct (getitem r col) as [x| |] eqn:Hx; simpl; try discriminate.
    + destruct (negb (Ascii.eqb x " ")); [discriminate|].
      apply IH; lia.
    + by apply getitem_not_NoFuel in Hx.
  - by apply getitem_not_NoFuel in Hr.
Qed.

Lemma diagonal_walk_total b start_row start_col next_row next_col :
  diagonal_walk (walk_fuel b) b
    (start_row + (if start_row <? next_row then 1 else -1))
    (start_col + (if start_col <? next_col then 1 else -1))
    next_row
    (if start_row <? next_row then 1 else -1)
    (if start_col <? next_col then 1 else -1) <> NoFuel.
Proof.
  unfold walk_fuel. destruct (start_row <? next_row).
  - apply diagonal_walk_total_up; lia.
  - apply diagonal_walk_total_down; lia.
Qed.

Lemma empty_or_enemy_total b piece r c : empty_or_enemy b piece r c <> NoFuel.
Proof.
  unfold empty_or_enemy. apply rbind_total; [apply getitem2_not_NoFuel|].
  intros x. destruct (Ascii.eqb x " "); [discriminate|].
  apply rbind_total; [apply getitem2_not_NoFuel | discriminate].
Qed.

Lemma holds_enemy_total b piece r c : holds_enemy b piece r c <> NoFuel.
Proof.
  unfold holds_enemy. apply rbind_total; [apply getitem2_not_NoFuel|].
  intros x. destruct (Ascii.eqb x " "); [discriminate|].
  apply rbind_total; [apply getitem2_not_NoFuel | discriminate].
Qed.

Ltac total_step :=
  match goal with
  | |- Ret _ <> NoFuel => discriminate
  | |- Raise _ <> NoFuel => discriminate
  | |- getitem2 _ _ _ <> NoFuel => apply getitem2_not_NoFuel
  | |- empty_or_enemy _ _ _ _ <> NoFuel => apply empty_or_enemy_total
  | |- holds_enemy _ _ _ _ <> NoFuel => apply holds_enemy_total
  | |- diagonal_walk _ _ _ _ _ _ _ <> NoFuel => apply diagonal_walk_total
  | |- for_return _ _ <> NoFuel => apply for_return_total; intros ?
  | |- rbind _ _ <> NoFuel => apply rbind_total; [|intros ?]
  | |- (if ?c then _ else _) <> NoFuel => destruct c
  end.

Lemma is_valid_move_total self piece start_row start_col next_row next_col :
  _is_valid_move self piece start_row start_col next_row next_col <> NoFuel.
Proof. unfold _is_valid_move. cbv zeta. repeat total_step. Qed.

(** ** [make_move], case by case *)

Lemma convert_total s : _convert_square_to_indices s <> NoFuel.
Proof.
  unfold _convert_square_to_indices.
  destruct s as [|column [|row [|? ?]]]; try discriminate.
  unfold int. destruct ((48 <=? row) && (row <=? 57)); [discriminate|].
  destruct (unicode_decimal row); discriminate.
Qed.

Lemma game_state_eqb_eq a b : game_state_eqb a b = true <-> a = b.
Proof. destruct a, b; simpl; split; (done || discriminate). Qed.

Lemma make_move_unfinished s n self :
  _game_state self <> UNFINISHED -> make_move s n self = (Ret false, self).
Proof.
  intros H. unfold make_move, bind, read.
  destruct (game_state_eqb (_game_state self) UNFINISHED) eqn:E; [|done].
  by apply game_state_eqb_eq in E.
Qed.

Lemma make_move_eq s n :
  make_move s n =
    (do st <- read _game_state ;;
     if negb (game_state_eqb st UNFINISHED) then ret false else
     do (start_row, start_col) <- eval (fun _ => _convert_square_to_indices s) ;;
     do (next_row, to_col) <- eval (fun _ => _convert_square_to_indices n) ;;
     if negb ((0 <=? next_row) && (next_row <? 8) && (0 <=? to_col) && (to_col <? 8))
     then ret false else
     do piece <- square start_row start_col ;;
     do cur <- read _current_turn ;;
     if negb (truthy_char piece)
        || (islower piece && turn_eqb cur W)
        || (isupper piece && turn_eqb cur B)
     then ret false else
     do valid <- eval (fun self => _is_valid_move self piece start_row start_col next_row to_col) ;;
     if truthy valid then move_body piece start_row start_col next_row to_col
     else ret false).
Proof. reflexivity. Qed.

Lemma make_move_inv s n self r self' :
  make_move s n self = (r, self') ->
  (self' = self /\ (r = Ret false \/ exists e, r = Raise e))
  \/
  (exists start_row start_col next_row to_col piece,
     _game_state self = UNFINISHED /\
     _convert_square_to_indices s = Ret (start_row, start_col) /\
     _convert_square_to_indices n = Ret (next_row, to_col) /\
     0 <= next_row < 8 /\ 0 <= to_col < 8 /\
     getitem2 (_board self) start_row start_col = Ret piece /\
     (islower piece = true -> _current_turn self = B) /\
     (isupper piece = true -> _current_turn self = W) /\
     _is_valid_move self piece start_row start_col next_row to_col = Ret (Some true) /\
     move_body piece start_row start_col next_row to_col self = (r, self')).
Proof.
  rewrite make_move_eq. unfold bind, read, eval, square, ret.
  destruct (game_state_eqb (_game_state self) UNFINISHED) eqn:Est; simpl;
    [|intros [= <- <-]; left; eauto].
  apply game_state_eqb_eq in Est.
  destruct (_convert_square_to_indices s) as [[start_row start_col]|e|] eqn:Es;
    [|intros [= <- <-]; left; eauto|by apply convert_total in Es].
  destruct (_convert_square_to_indices n) as [[next_row to_col]|e|] eqn:En;
    [|intros [= <- <-]; left; eauto|by apply convert_total in En].
  destruct ((0 <=? next_row) && (next_row <? 8) && (0 <=? to_col) && (to_col <? 8)) eqn:Eb;
    simpl; [|intros [= <- <-]; left; eauto].
  destruct (getitem2 (_board self) start_row start_col) as [piece|e|] eqn:Ep;
    [|intros [= <- <-]; left; eauto|by apply getitem2_not_NoFuel in Ep].
  destruct (islower piece && turn_eqb (_current_turn self) W
            || isupper piece && turn_eqb (_current_turn self) B) eqn:Eg;
    [intros [= <- <-]; left; eauto|].
  destruct (_is_valid_move self piece start_row start_col next_row to_col)
    as [valid|e|] eqn:Ev;
    [|intros [= <- <-]; left; eauto|by apply is_valid_move_total in Ev].
  destruct valid as [[]|]; simpl;
    [|intros [= <- <-]; left; eauto|intros [= <- <-]; left; eauto].
  intros Hbody.
  right. exists start_row, start_col, next_row, to_col, piece.
  repeat (apply andb_true_iff in Eb as [Eb ?]).
  apply orb_false_iff in Eg as [Eg1 Eg2].
  split; [done|]. split; [done|]. split; [done|].
  split; [lia|]. split; [lia|]. split; [done|].
  split. { intros Hl. rewrite Hl in Eg1. simpl in Eg1. by destruct (_current_turn self). }
  split. { intros Hu. rewrite Hu in Eg2. simpl in Eg2. by destruct (_current_turn self). }
  split; [done|]. exact Hbody.
Qed.

Lemma finish_turn_run (self : ChessVar) :
  (do st' <- read _game_state ;;
   (if game_state_eqb st' UNFINISHED then
      do cur' <- read _current_turn ;;
      set_current_turn (if turn_eqb cur' W then B else W)
    else ret tt) ;;;
   ret true) self = (Ret true, finish_turn self).
Proof.
  unfold bind, read, ret, set_current_turn, finish_turn, with_turn, opposite.
  by destruct (game_state_eqb (_game_state self) UNFINISHED).
Qed.

Lemma move_body_applied self piece start_row start_col next_row to_col :
  wf_board (_board self) ->
  0 <= next_row < 8 -> 0 <= to_col < 8 ->
  getitem2 (_board self) start_row start_col = Ret piece ->
  exists i0 j0 final,
    norm_index 8 start_row = Some i0 /\ norm_index 8 start_col = Some j0 /\
    cell_at (_board self) i0 j0 = Some piece /\
    move_body piece start_row start_col next_row to_col self = (Ret true, final) /\
    applied self piece i0 j0 (Z.to_nat next_row) (Z.to_nat to_col) final /\
    wf_board (_board final).
Proof.
  intros Hwf Hr Hc Hpiece.
  apply getitem2_Ret in Hpiece as (i0 & j0 & Hi0 & Hj0 & Hp); [|done].
  exists i0, j0.
  assert (norm_index 8 next_row = Some (Z.to_nat next_row)) as Hi1
    by by apply norm_index_nonneg.
  assert (norm_index 8 to_col = Some (Z.to_nat to_col)) as Hj1
    by by apply norm_index_nonneg.
  destruct (getitem2_in_range _ _ _ _ _ Hwf Hi1 Hj1) as (captured & Hcap & Hget).
  set (i1 := Z.to_nat next_row) in *. set (j1 := Z.to_nat to_col) in *.
  set (b0 := put (_board self) i1 j1 piece).
  assert (wf_board b0) as Hwf0 by by apply wf_board_put.
  assert (wf_board (_board (relocate self piece i0 j0 i1 j1))) as Hwf1
    by by apply wf_board_put.
  unfold move_body.
  unfold bind at 1. unfold square at 1. unfold eval at 1. rewrite Hget.
  unfold bind at 1. rewrite (set_square_put self _ _ piece i1 j1) by done.
  unfold bind at 1.
  rewrite (set_square_put (with_board self b0) _ _ " " i0 j0) by done.
  change (with_board (with_board self b0) (put (_board (with_board self b0)) i0 j0 " "))
    with (relocate self piece i0 j0 i1 j1).
  unfold bind at 1.
  destruct (Ascii.eqb captured " ") eqn:Ecap; cbn [negb].
  - cbn [ret]. rewrite finish_turn_run.
    eexists. split; [done|]. split; [done|]. split; [done|]. split; [reflexivity|].
    split.
    + exists captured, (relocate self piece i0 j0 i1 j1). rewrite Ecap. done.
    + unfold finish_turn.
      by destruct (game_state_eqb (_game_state (relocate self piece i0 j0 i1 j1)) UNFINISHED).
  - set (mid := with_state (relocate self piece i0 j0 i1 j1)
                  (capture_verdict (_game_state self) captured piece)).
    assert ((if Ascii.eqb (lower captured) "k" || Ascii.eqb (lower piece) "k" then
               set_game_state (if Ascii.eqb (lower captured) "k" then WHITE_WON else BLACK_WON)
             else ret tt) (relocate self piece i0 j0 i1 j1) = (Ret tt, mid)) as Hmid.
    { unfold mid, capture_verdict, is_king, with_state.
      destruct (Ascii.eqb (lower captured) "k" || Ascii.eqb (lower piece) "k"); [done|].
      unfold ret. by destruct self. }
    unfold bind at 1. rewrite Hmid.
    destruct (explosion_exploded mid next_row to_col) as (after & Hexp & Hafter);
      [done..|].
    rewrite Hexp. rewrite finish_turn_run.
    eexists. split; [done|]. split; [done|]. split; [done|]. split; [reflexivity|].
    split.
    + exists captured, after. rewrite Ecap.
      split; [done|]. split; [|done].
      unfold i1, j1. rewrite !Z2Nat.id by lia. exact Hexp.
    + destruct Hafter as (Hw & _). unfold finish_turn.
      by destruct (game_state_eqb (_game_state after) UNFINISHED).
Qed.

Lemma applied_inv self piece i0 j0 i1 j1 final :
  wf_board (_board self) -> (i1 < 8)%nat -> (j1 < 8)%nat ->
  applied self piece i0 j0 i1 j1 final ->
  exists captured after,
    cell_at (_board self) i1 j1 = Some captured /\
    final = finish_turn after /\
    ((captured = " "%char /\ after = relocate self piece i0 j0 i1 j1) \/
     (captured <> " "%char /\
      exploded (with_state (relocate self piece i0 j0 i1 j1)
                           (capture_verdict (_game_state self) captured piece))
               (blast_zone (Z.of_nat i1) (Z.of_nat j1)) after)).
Proof.
  intros Hwf Hi Hj (captured & after & Hcap & Hrun & ->).
  exists captured, after. split; [done|]. split; [done|].
  destruct (Ascii.eqb captured " ") eqn:E.
  - left. by apply Ascii.eqb_eq in E.
  - right. apply Ascii.eqb_neq in E. split; [done|].
    destruct (explosion_exploded
                (with_state (relocate self piece i0 j0 i1 j1)
                            (capture_verdict (_game_state self) captured piece))
                (Z.of_nat i1) (Z.of_nat j1)) as (after' & Hexp & Hafter);
      [by do 2 apply wf_board_put | lia | lia |].
    rewrite Hexp in Hrun. by injection Hrun as <-.
Qed.

Lemma finish_turn_state self : _game_state (finish_turn self) = _game_state self.
Proof.
  unfold finish_turn. by destruct (game_state_eqb (_game_state self) UNFINISHED).
Qed.

Lemma finish_turn_board self : _board (finish_turn self) = _board self.
Proof.
  unfold finish_turn. by destruct (game_state_eqb (_game_state self) UNFINISHED).
Qed.

Lemma finish_turn_turn self :
  _current_turn (finish_turn self) =
    if game_state_eqb (_game_state self) UNFINISHED
    then opposite (_current_turn self) else _current_turn self.
Proof.
  unfold finish_turn. by destruct (game_state_eqb (_game_state self) UNFINISHED).
Qed.

(** What every call of [make_move] on a game comes to. *)
Lemma make_move_cases s n self r self' :
  wf_board (_board self) ->
  make_move s n self = (r, self') ->
  (self' = self /\ (r = Ret false \/ exists e, r = Raise e))
  \/
  (r = Ret true /\
   exists start_row start_col next_row to_col piece i0 j0,
     _game_state self = UNFINISHED /\
     _convert_square_to_indices s = Ret (start_row, start_col) /\
     _convert_square_to_indices n = Ret (next_row, to_col) /\
     0 <= next_row < 8 /\ 0 <= to_col < 8 /\
     norm_index 8 start_row = Some i0 /\ norm_index 8 start_col = Some j0 /\
     cell_at (_board self) i0 j0 = Some piece /\
     _is_valid_move self piece start_row start_col next_row to_col = Ret (Some true) /\
     applied self piece i0 j0 (Z.to_nat next_row) (Z.to_nat to_col) self' /\
     wf_board (_board self')).
Proof.
  intros Hwf Hrun.
  destruct (make_move_inv s n self r self' Hrun)
    as [?|(sr & sc & nr & nc & piece & Hst & Hs & Hn & Hr & Hc & Hp & _ & _ & Hv & Hbody)];
    [by left|].
  right.
  destruct (move_body_applied self piece sr sc nr nc Hwf Hr Hc Hp)
    as (i0 & j0 & final & Hi0 & Hj0 & Hcell & Hfin & Happ & Hwf').
  rewrite Hfin in Hbody. injection Hbody as <- <-.
  split; [done|]. exists sr, sc, nr, nc, piece, i0, j0. done.
Qed.

Lemma wf_new_game : wf_board (_board new_game).
Proof. split; [reflexivity|]. repeat constructor. Qed.

(** ** Terminal freeze *)

(** C5. Once the outcome is not Unfinished, every call of [make_move],
    whatever its two arguments, returns [False] and leaves the board, the
    turn and the outcome as they were; so does every sequence of calls,
    hence the outcome never leaves WhiteWon or BlackWon. *)
Theorem terminal_freeze (self : ChessVar) :
  _game_state self <> UNFINISHED ->
  (forall s n, make_move s n self = (Ret false, self)) /\
  (forall moves, play self moves = ((fun _ => Ret false) <$> moves, self)).
Proof.
  intros Hterm. split.
  - intros s n. by apply make_move_unfinished.
  - induction moves as [|[s n] moves IH]; [done|].
    simpl. rewrite make_move_unfinished by done. by rewrite IH.
Qed.

(** ** Turn alternation *)

Lemma applied_turn self piece i0 j0 i1 j1 final :
  wf_board (_board self) -> (i1 < 8)%nat -> (j1 < 8)%nat ->
  applied self piece i0 j0 i1 j1 final ->
  _current_turn final =
    if game_state_eqb (_game_state final) UNFINISHED
    then opposite (_current_turn self) else _current_turn self.
Proof.
  intros Hwf Hi Hj Happ.
  destruct (applied_inv _ _ _ _ _ _ _ Hwf Hi Hj Happ)
    as (captured & after & _ & -> & Hafter).
  rewrite finish_turn_turn, finish_turn_state.
  assert (_current_turn after = _current_turn self) as ->; [|done].
  destruct Hafter as [[_ ->]|[_ (_ & Ht & _)]]; [done|]. by rewrite Ht.
Qed.

(** C8. A successfully applied move after which the outcome is still
    Unfinished hands the turn to the opposite color; a successfully
    applied move after which the outcome is terminal, and every call that
    did not apply a move, leave the turn unchanged. *)
Theorem turn_alternation (self : ChessVar) (s n : list Z) (r : res bool) (self' : ChessVar) :
  wf_board (_board self) ->
  make_move s n self = (r, self') ->
  (r = Ret true -> _game_state self' = UNFINISHED ->
     _current_turn self' = opposite (_current_turn self)) /\
  (r = Ret true -> _game_state self' <> UNFINISHED ->
     _current_turn self' = _current_turn self) /\
  (r <> Ret true -> _current_turn self' = _current_turn self).
Proof.
  intros Hwf Hrun.
  destruct (make_move_cases s n self r self' Hwf Hrun)
    as [[-> Hr]|[-> (sr & sc & nr & nc & piece & i0 & j0 & _ & _ & _ & Hr & Hc & _ & _ & _ & _
                       & Happ & _)]].
  - split; [|split]; [| |done].
    + intros ->. destruct Hr as [?|[? ?]]; discriminate.
    + intros ->. destruct Hr as [?|[? ?]]; discriminate.
  - apply applied_turn in Happ; [|done|lia|lia].
    split; [|split].
    + intros _ Hst. rewrite Happ, Hst. done.
    + intros _ Hst. rewrite Happ.
      destruct (game_state_eqb (_game_state self') UNFINISHED) eqn:E; [|done].
      by apply game_state_eqb_eq in E.
    + done.
Qed.

(** ** No [IndexError] from the squares of the board *)

Lemma range_step_m1 a b :
  range a b (-1) = (fun k => a - Z.of_nat k) <$> seq 0 (Z.to_nat (a - b)).
Proof.
  unfold range, range_len. change (0 <? -1) with false. cbv iota.
  change (- -1) with 1. rewrite Z.div_1_r.
  replace (Z.to_nat (Z.max 0 (a - b - -1 - 1))) with (Z.to_nat (a - b)) by lia.
  apply list_fmap_ext. intros _ k _. lia.
Qed.

Lemma elem_of_range_m1 a b x : x ∈ range a b (-1) <-> b < x <= a.
Proof.
  rewrite range_step_m1, list_elem_of_fmap. split.
  - intros (k & -> & Hk%elem_of_seq). lia.
  - intros H. exists (Z.to_nat (a - x)). split; [lia|]. apply elem_of_seq. lia.
Qed.

Lemma getitem2_on_board b r c :
  wf_board b -> 0 <= r < 8 -> 0 <= c < 8 -> exists x, getitem2 b r c = Ret x.
Proof.
  intros Hwf Hr Hc.
  destruct (getitem2_in_range b r c (Z.to_nat r) (Z.to_nat c) Hwf) as (x & _ & Hx);
    [by apply norm_index_nonneg..|]. eauto.
Qed.

Lemma for_return_ok {A} (xs : list A) body :
  (forall x, x ∈ xs -> exists v, body x = Ret v) -> exists v, for_return xs body = Ret v.
Proof.
  induction xs as [|x xs IH]; intros Hb; simpl; [eauto|].
  destruct (Hb x) as [v ->]; [by left|]. simpl.
  destruct v; [eauto|]. apply IH. intros y Hy. apply Hb. by right.
Qed.

Lemma empty_or_enemy_ok b piece r c :
  wf_board b -> 0 <= r < 8 -> 0 <= c < 8 -> exists v, empty_or_enemy b piece r c = Ret v.
Proof.
  intros Hwf Hr Hc. unfold empty_or_enemy.
  destruct (getitem2_on_board b r c Hwf Hr Hc) as [x ->]. simpl.
  destruct (Ascii.eqb x " "); eauto.
Qed.

Lemma holds_enemy_ok b piece r c :
  wf_board b -> 0 <= r < 8 -> 0 <= c < 8 -> exists v, holds_enemy b piece r c = Ret v.
Proof.
  intros Hwf Hr Hc. unfold holds_enemy.
  destruct (getitem2_on_board b r c Hwf Hr Hc) as [x ->]. simpl.
  destruct (Ascii.eqb x " "); eauto.
Qed.

(** A walk of [k] diagonal steps over squares of the board ends. *)
Lemma diagonal_walk_ok (k : nat) fuel b row col next_row row_step col_step :
  wf_board b ->
  (row_step = 1 \/ row_step = -1) ->
  next_row = row + row_step * Z.of_nat k ->
  (k <= fuel)%nat ->
  (forall t, 0 <= t < Z.of_nat k ->
     0 <= row + row_step * t < 8 /\ 0 <= col + col_step * t < 8) ->
  exists v, diagonal_walk fuel b row col next_row row_step col_step = Ret v.
Proof.
  intros Hwf Hstep. revert fuel row col.
  induction k as [|k IH]; intros fuel row col Hnext Hfuel Hin.
  - destruct fuel; simpl; replace (row =? next_row) with true by lia; eauto.
  - destruct fuel as [|fuel]; [lia|]. simpl.
    replace (row =? next_row) with false by lia.
    destruct (getitem2_on_board b row col Hwf) as [x ->].
    { specialize (Hin 0). lia. }
    { specialize (Hin 0). lia. }
    simpl. destruct (negb (Ascii.eqb x " ")); [eauto|].
    apply IH; [lia | lia |].
    intros t Ht. specialize (Hin (t + 1)). lia.
Qed.

(** A walk that starts beside its own target row runs down the board,
    wraps to the far side and is stopped by the piece it started from. *)
Lemma diagonal_walk_wrap (k : nat) fuel b r c x row col :
  wf_board b -> 0 <= r < 8 -> 0 <= c < 8 ->
  getitem2 b r c = Ret x -> x <> " "%char ->
  (k < 8)%nat -> (S k <= fuel)%nat ->
  row = r - 8 + Z.of_nat k -> col = c - 8 + Z.of_nat k ->
  exists v, diagonal_walk fuel b row col r (-1) (-1) = Ret v.
Proof.
  intros Hwf Hr Hc Hx Hnb. revert fuel row col.
  induction k as [|k IH]; intros fuel row col Hk Hfuel Hrow Hcol.
  - destruct fuel as [|fuel]; [lia|]. simpl.
    replace (row =? r) with false by lia.
    assert (getitem2 b row col = Ret x) as ->.
    { apply getitem2_Ret in Hx as (i & j & Hi & Hj & Hcell); [|done].
      rewrite norm_index_nonneg in Hi, Hj by done.
      apply getitem2_Ret; [done|]. exists i, j. split; [|split; [|done]].
      - rewrite <- Hi, norm_index_neg by lia. f_equal. lia.
      - rewrite <- Hj, norm_index_neg by lia. f_equal. lia. }
    simpl. destruct (Ascii.eqb x " ") eqn:E; [by apply Ascii.eqb_eq in E|]. simpl. eauto.
  - destruct fuel as [|fuel]; [lia|]. simpl.
    replace (row =? r) with false by lia.
    assert (exists y, getitem2 b row col = Ret y) as [y ->].
    { destruct (norm_index_valid 8 row) as [i Hi]; [lia|].
      destruct (norm_index_valid 8 col) as [j Hj]; [lia|].
      destruct (getitem2_in_range b _ _ i j Hwf Hi Hj) as (y & _ & Hy). eauto. }
    simpl. destruct (negb (Ascii.eqb y " ")); [eauto|].
    apply IH; lia.
Qed.

Lemma lower_blank_letter piece letter :
  Ascii.eqb (lower piece) letter = true -> letter <> " "%char -> piece <> " "%char.
Proof. intros H Hl ->. apply Ascii.eqb_eq in H. by apply Hl. Qed.

Lemma is_valid_move_ok self piece start_row start_col next_row next_col :
  wf_board (_board self) ->
  0 <= start_row < 8 -> 0 <= start_col < 8 ->
  0 <= next_row < 8 -> 0 <= next_col < 8 ->
  getitem2 (_board self) start_row start_col = Ret piece ->
  exists v, _is_valid_move self piece start_row start_col next_row next_col = Ret v.
Proof.
  intros Hwf Hsr Hsc Hnr Hnc Hpiece.
  assert (length (_board self) = 8%nat) as Hlen by by destruct Hwf.
  unfold _is_valid_move. cbv zeta.
  destruct (Ascii.eqb (lower piece) "k").
  { destruct ((Z.abs (start_row - next_row) <=? 1) && (Z.abs (start_col - next_col) <=? 1));
      [|eauto].
    destruct (empty_or_enemy_ok (_board self) piece next_row next_col) as [v ->]; eauto. }
  destruct (Ascii.eqb (lower piece) "p").
  { destruct (getitem2_on_board (_board self) next_row next_col) as [x Hx]; [done..|].
    destruct (start_col =? next_col).
    - destruct (turn_eqb (_current_turn self) W && (start_row - next_row =? 1)
                || turn_eqb (_current_turn self) B && (next_row - start_row =? 1)).
      { rewrite Hx. simpl. eauto. }
      destruct (turn_eqb (_current_turn self) W && (start_row =? 6) && (next_row =? 4)
                || turn_eqb (_current_turn self) B && (start_row =? 1) && (next_row =? 3));
        [|eauto].
      rewrite Hx. simpl. destruct (Ascii.eqb x " "); [|eauto].
      destruct (getitem2_on_board (_board self) ((start_row + next_row) / 2) next_col)
        as [y ->]; [done | | done | simpl; eauto].
      split; [apply Z.div_pos; lia | apply Z.div_lt_upper_bound; lia].
    - destruct ((Z.abs (start_col - next_col) =? 1)
                && (turn_eqb (_current_turn self) W && (start_row - next_row =? 1)
                    || turn_eqb (_current_turn self) B && (next_row - start_row =? 1)));
        [|eauto].
      destruct (holds_enemy_ok (_board self) piece next_row next_col) as [v ->]; eauto. }
  destruct (Ascii.eqb (lower piece) "r").
  { destruct (negb (start_row =? next_row) && negb (start_col =? next_col)); [eauto|].
    assert (forall stop : bool, exists v, (let* blocked := Ret stop in
              if blocked then Ret (Some false)
              else let* ok := empty_or_enemy (_board self) piece next_row next_col in
                   Ret (Some ok)) = Ret v) as Hrest.
    { intros []; simpl; [eauto|].
      destruct (empty_or_enemy_ok (_board self) piece next_row next_col) as [v ->]; eauto. }
    destruct (start_row =? next_row).
    - destruct (for_return_ok
                  (range (start_col + (if start_col <? next_col then 1 else -1)) next_col
                         (if start_col <? next_col then 1 else -1))
                  (fun col => if negb ((0 <=? col) && (col <? 8)) then Ret true
                              else let* x := getitem2 (_board self) start_row col in
                                   Ret (negb (Ascii.eqb x " ")))) as [stop ->]; [|apply Hrest].
      intros col _. destruct ((0 <=? col) && (col <? 8)) eqn:E; simpl; [|eauto].
      apply andb_true_iff in E.
      destruct (getitem2_on_board (_board self) start_row col) as [x ->];
        [done | done | lia | simpl; eauto].
    - destruct (for_return_ok
                  (range (start_row + (if start_row <? next_row then 1 else -1)) next_row
                         (if start_row <? next_row then 1 else -1))
                  (fun row => if negb ((0 <=? row) && (row <? 8)) then Ret true
                              else let* x := getitem2 (_board self) row start_col in
                                   Ret (negb (Ascii.eqb x " ")))) as [stop ->]; [|apply Hrest].
      intros row _. destruct ((0 <=? row) && (row <? 8)) eqn:E; simpl; [|eauto].
      apply andb_true_iff in E.
      destruct (getitem2_on_board (_board self) row start_col) as [x ->];
        [done | lia | done | simpl; eauto]. }
  destruct (Ascii.eqb (lower piece) "n").
  { destruct ((Z.abs (next_row - start_row) =? 1) && (Z.abs (next_col - start_col) =? 2));
      [eauto|].
    destruct ((Z.abs (next_row - start_row) =? 2) && (Z.abs (next_col - start_col) =? 1));
      [|eauto].
    destruct (empty_or_enemy_ok (_board self) piece next_row next_col) as [v ->]; eauto. }
  assert (Z.abs (start_row - next_row) = Z.abs (start_col - next_col) ->
          start_row <> next_row ->
          exists v, diagonal_walk (walk_fuel (_board self)) (_board self)
                      (start_row + (if start_row <? next_row then 1 else -1))
                      (start_col + (if start_col <? next_col then 1 else -1))
                      next_row
                      (if start_row <? next_row then 1 else -1)
                      (if start_col <? next_col then 1 else -1) = Ret v) as Hwalk.
  { intros Habs Hne.
    apply (diagonal_walk_ok (Z.to_nat (Z.abs (start_row - next_row) - 1)));
      [done | destruct (start_row <? next_row); auto | | unfold walk_fuel; lia |].
    - destruct (start_row <? next_row) eqn:E; lia.
    - intros t Ht.
      destruct (start_row <? next_row) eqn:E1; destruct (start_col <? next_col) eqn:E2; lia. }
  destruct (Ascii.eqb (lower piece) "b") eqn:Eb.
  { destruct (Z.abs (start_row - next_row) =? Z.abs (start_col - next_col)) eqn:Eabs;
      cbn [negb]; [|eauto].
    apply Z.eqb_eq in Eabs.
    assert (exists stop, diagonal_walk (walk_fuel (_board self)) (_board self)
                      (start_row + (if start_row <? next_row then 1 else -1))
                      (start_col + (if start_col <? next_col then 1 else -1))
                      next_row
                      (if start_row <? next_row then 1 else -1)
                      (if start_col <? next_col then 1 else -1) = Ret stop) as [stop ->].
    { destruct (decide (start_row = next_row)) as [Heq|Hne]; [|by apply Hwalk].
      assert (start_col = next_col) as Heqc by lia. subst next_row next_col.
      rewrite !Z.ltb_irrefl.
      apply (diagonal_walk_wrap 7 _ _ start_row start_col piece);
        [done | done | done | done | | lia | unfold walk_fuel; lia | lia | lia].
      by apply (lower_blank_letter piece "b"). }
    simpl. destruct stop; [eauto|].
    destruct (empty_or_enemy_ok (_board self) piece next_row next_col) as [v ->]; eauto. }
  destruct (Ascii.eqb (lower piece) "q"); [|eauto].
  assert (forall verdict : bool, exists v, (let* verdict := Ret verdict in
            if verdict
            then let* ok := empty_or_enemy (_board self) piece next_row next_col in
                 Ret (Some ok)
            else Ret (Some false)) = Ret v) as Hrest.
  { intros []; simpl; [|eauto].
    destruct (empty_or_enemy_ok (_board self) piece next_row next_col) as [v ->]; eauto. }
  destruct (start_row =? next_row) eqn:Erow.
  { destruct (for_return_ok
                (range (start_col + (if start_col <? next_col then 1 else -1)) next_col
                       (if start_col <? next_col then 1 else -1))
                (fun col => let* x := getitem2 (_board self) start_row col in
                            Ret (negb (Ascii.eqb x " ")))) as [stop ->]; [|apply Hrest].
    intros col Hcol.
    destruct (getitem2_on_board (_board self) start_row col) as [x ->];
      [done | done | | simpl; eauto].
    destruct (start_col <? next_col) eqn:E.
    - apply elem_of_range_1 in Hcol. lia.
    - apply elem_of_range_m1 in Hcol. lia. }
  destruct (start_col =? next_col) eqn:Ecol.
  { destruct (for_return_ok
                (range (start_row + (if start_row <? next_row then 1 else -1)) next_row
                       (if start_row <? next_row then 1 else -1))
                (fun row => let* x := getitem2 (_board self) row start_col in
                            Ret (negb (Ascii.eqb x " ")))) as [stop ->]; [|apply Hrest].
    intros row Hrow.
    destruct (getitem2_on_board (_board self) row start_col) as [x ->];
      [done | | done | simpl; eauto].
    destruct (start_row <? next_row) eqn:E.
    - apply elem_of_range_1 in Hrow. lia.
    - apply elem_of_range_m1 in Hrow. lia. }
  destruct (Z.abs (start_row - next_row) =? Z.abs (start_col - next_col)) eqn:Eabs;
    [|apply Hrest].
  destruct Hwalk as [stop ->]; [lia | lia | apply Hrest].
Qed.

(** ** Square notation *)

Lemma int_isdecimal c : isdecimal unicode_decimal c = true <-> exists d, int unicode_decimal c = Ret d.
Proof.
  unfold isdecimal, int.
  destruct ((48 <=? c) && (c <=? 57)); simpl; [split; by eauto|].
  destruct (unicode_decimal c); split; try by eauto.
  by intros [? ?].
Qed.

Lemma int_not_decimal c : isdecimal unicode_decimal c = false -> int unicode_decimal c = Raise ValueError.
Proof.
  unfold isdecimal, int.
  destruct ((48 <=? c) && (c <=? 57)); simpl; [done|].
  by destruct (unicode_decimal c).
Qed.

Lemma int_ascii_digit c : 48 <= c <= 57 -> int unicode_decimal c = Ret (c - 48).
Proof.
  intros Hc. unfold int.
  by replace ((48 <=? c) && (c <=? 57)) with true by (symmetry; apply andb_true_iff; lia).
Qed.

Lemma int_digit c d : int unicode_decimal c = Ret d -> 0 <= d <= 9.
Proof.
  unfold int. destruct ((48 <=? c) && (c <=? 57)) eqn:E.
  - intros [= <-]. apply andb_true_iff in E. lia.
  - destruct (unicode_decimal c) as [d'|] eqn:Ed; [|discriminate].
    intros [= <-]. by apply (unicode_decimal_spec c).
Qed.

Lemma int_ascii c d : c < 128 -> int unicode_decimal c = Ret d -> 48 <= c <= 57 /\ d = c - 48.
Proof.
  unfold int. intros Hc. destruct ((48 <=? c) && (c <=? 57)) eqn:E.
  - intros [= <-]. apply andb_true_iff in E. lia.
  - destruct (unicode_decimal c) as [d'|] eqn:Ed; [|discriminate].
    apply unicode_decimal_spec in Ed. lia.
Qed.

Lemma convert_Ret_inv s r c :
  _convert_square_to_indices s = Ret (r, c) ->
  exists column row d, s = [column; row] /\ int unicode_decimal row = Ret d /\
    r = 8 - d /\ c = column - 97.
Proof.
  unfold _convert_square_to_indices.
  destruct s as [|column [|row [|? ?]]]; try discriminate.
  destruct (int unicode_decimal row) as [d| |] eqn:E; simpl; [|discriminate..].
  intros [= <- <-]. by exists column, row, d.
Qed.

Lemma convert_parses s :
  parses s = true -> exists r c, _convert_square_to_indices s = Ret (r, c).
Proof.
  unfold parses, _convert_square_to_indices.
  destruct s as [|column [|row [|? ?]]]; try done.
  intros [d ->]%int_isdecimal. simpl. eauto.
Qed.

Lemma convert_not_parses s :
  parses s = false -> _convert_square_to_indices s = Raise ValueError.
Proof.
  unfold parses, _convert_square_to_indices.
  destruct s as [|column [|row [|? ?]]]; try done.
  by intros ->%int_not_decimal.
Qed.

Lemma convert_Ret_parses s r c : _convert_square_to_indices s = Ret (r, c) -> parses s = true.
Proof.
  intros H. destruct (parses s) eqn:E; [done|].
  rewrite convert_not_parses in H by done. discriminate.
Qed.

Lemma convert_well_formed s r c :
  _convert_square_to_indices s = Ret (r, c) ->
  well_formed_square s = true -> on_board r c.
Proof.
  intros (column & row & d & -> & Hd & -> & ->)%convert_Ret_inv.
  unfold well_formed_square, on_board.
  change (ord "a") with 97. change (ord "h") with 104.
  change (ord "1") with 49. change (ord "8") with 56.
  rewrite !andb_true_iff. intros Hwf.
  rewrite int_ascii_digit in Hd by lia. injection Hd as <-. lia.
Qed.

Lemma convert_Raise s e : _convert_square_to_indices s = Raise e -> e = ValueError.
Proof.
  unfold _convert_square_to_indices, int.
  destruct s as [|column [|row [|? ?]]]; try congruence.
  destruct ((48 <=? row) && (row <=? 57)); simpl; [congruence|].
  destruct (unicode_decimal row); simpl; congruence.
Qed.

(** ** Malformed input *)

(** C3, as the code has it. A call whose two strings parse (two
    characters, the second a decimal digit of any script) and whose
    destination is turned into indices that are not a square of the
    board returns [False] and leaves the board, the turn and the outcome
    unchanged; on an unfinished game a string that does not parse makes
    [make_move] raise [ValueError], again with the board, the turn and
    the outcome unchanged. *)
Theorem malformed_input (self : ChessVar) (s n : list Z) :
  (parses s = true ->
   forall next_row to_col,
     _convert_square_to_indices n = Ret (next_row, to_col) ->
     ~ on_board next_row to_col ->
     make_move s n self = (Ret false, self)) /\
  (_game_state self = UNFINISHED -> parses s = false \/ parses n = false ->
     make_move s n self = (Raise ValueError, self)).
Proof.
  split.
  - intros Hs nr nc En Hoff.
    destruct (game_state_eqb (_game_state self) UNFINISHED) eqn:Hst;
      [apply game_state_eqb_eq in Hst
      |apply make_move_unfinished; intros E; apply game_state_eqb_eq in E; congruence].
    destruct (convert_parses s Hs) as (sr & sc & Es).
    rewrite make_move_eq. unfold bind, read, eval, ret. rewrite Hst, Es, En. simpl.
    destruct ((0 <=? nr) && (nr <? 8) && (0 <=? nc) && (nc <? 8)) eqn:Eb; [|done].
    exfalso. rewrite !andb_true_iff in Eb. apply Hoff. unfold on_board. lia.
  - intros Hst Hbad. rewrite make_move_eq. unfold bind, read, eval, ret. rewrite Hst. simpl.
    destruct (parses s) eqn:Hs.
    + destruct Hbad as [?|Hn]; [done|].
      destruct (convert_parses s Hs) as (sr & sc & ->).
      by rewrite (convert_not_parses n Hn).
    + by rewrite (convert_not_parses s Hs).
Qed.

(** ** Atomicity *)

Lemma make_move_raise s n self e self' :
  wf_board (_board self) ->
  (forall start_row start_col,
     _convert_square_to_indices s = Ret (start_row, start_col) -> on_board start_row start_col) ->
  make_move s n self = (Raise e, self') -> e = ValueError.
Proof.
  intros Hwf Hs. rewrite make_move_eq. unfold bind, read, eval, square, ret.
  destruct (game_state_eqb (_game_state self) UNFINISHED); simpl; [|discriminate].
  destruct (_convert_square_to_indices s) as [[sr sc]|e0|] eqn:Es;
    [|intros [= <- _]; by apply (convert_Raise s)|by apply convert_total in Es].
  destruct (_convert_square_to_indices n) as [[nr nc]|e0|] eqn:En;
    [|intros [= <- _]; by apply (convert_Raise n)|by apply convert_total in En].
  destruct ((0 <=? nr) && (nr <? 8) && (0 <=? nc) && (nc <? 8)) eqn:Eb;
    simpl; [|discriminate].
  rewrite !andb_true_iff in Eb.
  assert (0 <= sr < 8 /\ 0 <= sc < 8) as [Hsr Hsc].
  { by apply Hs. }
  destruct (getitem2_on_board (_board self) sr sc Hwf Hsr Hsc) as [piece Hp]. rewrite Hp.
  destruct (islower piece && turn_eqb (_current_turn self) W
            || isupper piece && turn_eqb (_current_turn self) B); [discriminate|].
  destruct (is_valid_move_ok self piece sr sc nr nc) as [v ->]; [done | done | done | lia | lia | done |].
  destruct (truthy v); [|discriminate].
  destruct (move_body_applied self piece sr sc nr nc) as (i0 & j0 & final & _ & _ & _ & -> & _);
    [done | lia | lia | done |].
  discriminate.
Qed.

(** C7, as the code has it. On a game and for two strings of which the
    first, when it parses, is turned into a square of the board: either
    [make_move] returns [True] and the move is carried out in full, or
    it returns [False] or raises [ValueError] and the board, the turn and
    the outcome are exactly as before the call. *)
Theorem make_move_atomic (self : ChessVar) (s n : list Z) (r : res bool) (self' : ChessVar) :
  wf_board (_board self) ->
  (forall start_row start_col,
     _convert_square_to_indices s = Ret (start_row, start_col) -> on_board start_row start_col) ->
  make_move s n self = (r, self') ->
  (r = Ret true /\
   exists start_row start_col next_row to_col piece,
     _convert_square_to_indices s = Ret (start_row, start_col) /\
     _convert_square_to_indices n = Ret (next_row, to_col) /\
     0 <= start_row < 8 /\ 0 <= start_col < 8 /\ 0 <= next_row < 8 /\ 0 <= to_col < 8 /\
     getitem2 (_board self) start_row start_col = Ret piece /\
     _is_valid_move self piece start_row start_col next_row to_col = Ret (Some true) /\
     applied self piece (Z.to_nat start_row) (Z.to_nat start_col)
             (Z.to_nat next_row) (Z.to_nat to_col) self')
  \/
  ((r = Ret false \/ r = Raise ValueError) /\ self' = self).
Proof.
  intros Hwf Hs Hrun.
  destruct (make_move_cases s n self r self' Hwf Hrun)
    as [[-> Hr]|[-> (sr & sc & nr & nc & piece & i0 & j0 & _ & Es & En & Hnr & Hnc & Hi0 & Hj0
                       & Hcell & Hv & Happ & _)]].
  - right. split; [|done]. destruct Hr as [->|[e ->]]; [by left|right].
    by rewrite (make_move_raise s n self e self Hwf Hs Hrun).
  - left. split; [done|]. exists sr, sc, nr, nc, piece.
    assert (0 <= sr < 8 /\ 0 <= sc < 8) as [Hsr Hsc].
    { by apply Hs. }
    rewrite norm_index_nonneg in Hi0, Hj0 by done.
    injection Hi0 as <-. injection Hj0 as <-.
    do 6 (split; [done|]). split; [|done].
    apply getitem2_Ret; [done|]. exists (Z.to_nat sr), (Z.to_nat sc).
    by rewrite !norm_index_nonneg.
Qed.

(** ** Moves onto an empty square *)

Lemma is_valid_move_blank self start_row start_col next_row next_col :
  _is_valid_move self " " start_row start_col next_row next_col = Ret None.
Proof. reflexivity. Qed.

(** C10. A successfully applied move whose destination square was empty
    changes exactly two squares of the board, the origin, which becomes
    empty, and the destination, which receives the moved piece; every
    other square is unchanged (no explosion), the outcome stays
    Unfinished and the turn passes. *)
Theorem quiet_move_frame (self : ChessVar) (s n : list Z) (self' : ChessVar)
    (next_row to_col : Z) :
  wf_board (_board self) ->
  make_move s n self = (Ret true, self') ->
  _convert_square_to_indices n = Ret (next_row, to_col) ->
  getitem2 (_board self) next_row to_col = Ret " "%char ->
  exists start_row start_col piece i0 j0,
    _convert_square_to_indices s = Ret (start_row, start_col) /\
    norm_index 8 start_row = Some i0 /\ norm_index 8 start_col = Some j0 /\
    (i0, j0) <> (Z.to_nat next_row, Z.to_nat to_col) /\
    cell_at (_board self) i0 j0 = Some piece /\ piece <> " "%char /\
    cell_at (_board self') i0 j0 = Some " "%char /\
    cell_at (_board self') (Z.to_nat next_row) (Z.to_nat to_col) = Some piece /\
    (forall i j, (i, j) <> (i0, j0) -> (i, j) <> (Z.to_nat next_row, Z.to_nat to_col) ->
       cell_at (_board self') i j = cell_at (_board self) i j) /\
    _board self' = put (put (_board self) (Z.to_nat next_row) (Z.to_nat to_col) piece) i0 j0 " " /\
    _game_state self' = UNFINISHED /\
    _current_turn self' = opposite (_current_turn self).
Proof.
  intros Hwf Hrun Hn Hempty.
  destruct (make_move_cases s n self (Ret true) self' Hwf Hrun)
    as [[_ [?|[? ?]]]|[_ (sr & sc & nr & nc & piece & i0 & j0 & Hst & Es & En & Hnr & Hnc
                          & Hi0 & Hj0 & Hcell & Hv & Happ & _)]]; try discriminate.
  rewrite Hn in En. injection En as <- <-.
  assert (cell_at (_board self) (Z.to_nat next_row) (Z.to_nat to_col) = Some " "%char) as Hdest.
  { apply getitem2_Ret in Hempty as (i & j & Hi & Hj & Hc); [|done].
    rewrite norm_index_nonneg in Hi, Hj by done. congruence. }
  set (i1 := Z.to_nat next_row) in *. set (j1 := Z.to_nat to_col) in *.
  assert (piece <> " "%char) as Hpiece.
  { intros ->. by rewrite is_valid_move_blank in Hv. }
  assert ((i0, j0) <> (i1, j1)) as Hne.
  { intros [= -> ->]. congruence. }
  assert (i1 < 8 /\ j1 < 8)%nat as [Hi1 Hj1] by (unfold i1, j1; lia).
  destruct (applied_inv self piece i0 j0 i1 j1 self' Hwf Hi1 Hj1 Happ) as
    (captured & after & Hcap & -> & [[_ ->]|[Hcap' _]]); [|congruence].
  exists sr, sc, piece, i0, j0.
  rewrite finish_turn_board, finish_turn_state, finish_turn_turn.
  unfold relocate. simpl. rewrite Hst. simpl.
  do 6 (split; [done|]).
  split. { apply (cell_at_put_eq _ _ _ _ piece). by rewrite cell_at_put_ne. }
  split. { rewrite cell_at_put_ne by done. by apply (cell_at_put_eq _ _ _ _ " "%char). }
  split; [|done].
  intros i j H0 H1. by rewrite !cell_at_put_ne.
Qed.

(** ** Explosion radius *)

Lemma elem_of_zone_contents b row col y :
  y ∈ content b <$> blast_zone row col <->
  exists i j, in_radius row col i j /\ content b (i, j) = y.
Proof.
  rewrite list_elem_of_fmap. split.
  - intros ([i j] & -> & Hin%elem_of_blast_zone). eauto.
  - intros (i & j & Hin & <-). exists (i, j). split; [done|]. by apply elem_of_blast_zone.
Qed.

(** C6. On a board, [_explosion] centred on a square [(row, col)] empties
    every square of the clipped neighbourhood rows
    [max(0,row-1) .. min(7,row+1)], columns [max(0,col-1) .. min(7,col+1)]
    that does not hold a pawn, leaves the pawns there and every square
    outside untouched, and on removing a king sets the outcome to a win
    for the color opposite that king's: the outcome is unchanged when no
    king is in the neighbourhood, BlackWon when only a white king is,
    WhiteWon when only a black king is, and in general the kings found in
    the order of the scan each overwrite it. *)
Theorem explosion_radius (self : ChessVar) (row col : Z) :
  wf_board (_board self) -> 0 <= row < 8 -> 0 <= col < 8 ->
  exists self',
    _explosion row col self = (Ret tt, self') /\
    wf_board (_board self') /\
    _current_turn self' = _current_turn self /\
    (forall i j x, 0 <= i < 8 -> 0 <= j < 8 ->
       getitem2 (_board self) i j = Ret x ->
       (in_radius row col i j -> is_pawn x = false ->
          getitem2 (_board self') i j = Ret " "%char) /\
       (in_radius row col i j -> is_pawn x = true ->
          getitem2 (_board self') i j = Ret x) /\
       (~ in_radius row col i j -> getitem2 (_board self') i j = Ret x)) /\
    _game_state self' =
      foldl king_verdict (_game_state self) (content (_board self) <$> blast_zone row col) /\
    ((forall i j, in_radius row col i j -> is_king (content (_board self) (i, j)) = false) ->
       _game_state self' = _game_state self) /\
    ((exists i j, in_radius row col i j /\ content (_board self) (i, j) = "K"%char) ->
     (forall i j, in_radius row col i j -> content (_board self) (i, j) <> "k"%char) ->
       _game_state self' = BLACK_WON) /\
    ((exists i j, in_radius row col i j /\ content (_board self) (i, j) = "k"%char) ->
     (forall i j, in_radius row col i j -> content (_board self) (i, j) <> "K"%char) ->
       _game_state self' = WHITE_WON).
Proof.
  intros Hwf Hrow Hcol.
  destruct (explosion_exploded self row col Hwf Hrow Hcol) as (self' & Hrun & Hw & Ht & Hb & Ho).
  exists self'. do 3 (split; [done|]). split; [|split; [done|]].
  - intros i j x Hi Hj Hx. specialize (Hb i j Hi Hj).
    assert (content (_board self) (i, j) = x) as Hc by (unfold content; simpl; by rewrite Hx).
    rewrite Hc in Hb. unfold blast in Hb. split; [|split].
    + intros Hin Hp. rewrite Hb, bool_decide_eq_true_2 by by apply elem_of_blast_zone.
      by rewrite Hp.
    + intros Hin Hp. rewrite Hb, bool_decide_eq_true_2 by by apply elem_of_blast_zone.
      by rewrite Hp.
    + intros Hout. rewrite Hb, bool_decide_eq_false_2; [done|].
      by rewrite elem_of_blast_zone.
  - rewrite Ho. split; [|split].
    + intros Hnone. apply foldl_verdict_no_king.
      intros y (i & j & Hin & <-)%elem_of_zone_contents. by apply Hnone.
    + intros (i & j & Hin & HK) Hnk.
      destruct (foldl_verdict_only (_game_state self)
                  (content (_board self) <$> blast_zone row col) "K") as [->|[_ Hnot]].
      * reflexivity.
      * intros y (i' & j' & Hin' & <-)%elem_of_zone_contents [Hk|Hk]%is_king_iff; [|done].
        by apply Hnk in Hk.
      * reflexivity.
      * exfalso. apply Hnot. apply elem_of_zone_contents. eauto.
    + intros (i & j & Hin & HK) Hnk.
      destruct (foldl_verdict_only (_game_state self)
                  (content (_board self) <$> blast_zone row col) "k") as [->|[_ Hnot]].
      * reflexivity.
      * intros y (i' & j' & Hin' & <-)%elem_of_zone_contents [Hk|Hk]%is_king_iff; [done|].
        by apply Hnk in Hk.
      * reflexivity.
      * exfalso. apply Hnot. apply elem_of_zone_contents. eauto.
Qed.

(** ** Counting kings *)

Lemma sum_list_insert {A} (f : A -> nat) (l : list A) i old v :
  l !! i = Some old ->
  (sum_list (f <$> <[i := v]> l) + f old = sum_list (f <$> l) + f v)%nat.
Proof.
  revert i. induction l as [|a l IH]; intros [|i] H; try discriminate; cbn in *.
  - injection H as ->. clear IH. lia.
  - rewrite <- !Nat.add_assoc. f_equal. exact (IH i H).
Qed.

Lemma sum_list_pointwise {A} (f g : A -> nat) (l l' : list A) :
  length l = length l' ->
  (forall i a a', l !! i = Some a -> l' !! i = Some a' -> f a = g a') ->
  sum_list (f <$> l) = sum_list (g <$> l').
Proof.
  revert l'. induction l as [|a l IH]; intros [|a' l'] Hlen H; try discriminate; [done|].
  cbn. rewrite (H 0%nat a a') by done. f_equal.
  apply IH; [by injection Hlen|]. intros i. apply (H (S i)).
Qed.

Lemma put_insert b i j v row :
  b !! i = Some row -> put b i j v = <[i := <[j := v]> row]> b.
Proof.
  intros Hrow. unfold put. apply list_eq. intros k.
  destruct (decide (i = k)) as [<-|Hne].
  - rewrite list_lookup_alter_eq, Hrow, list_lookup_insert_eq; [done|].
    apply lookup_lt_is_Some_1. eauto.
  - by rewrite list_lookup_alter_ne, list_lookup_insert_ne.
Qed.

Lemma count_put x b i j old v :
  cell_at b i j = Some old ->
  (count_on_board x (put b i j v) + holds x old = count_on_board x b + holds x v)%nat.
Proof.
  unfold cell_at, count_on_board. destruct (b !! i) as [row|] eqn:Hrow; [|discriminate].
  intros Hold. rewrite (put_insert b i j v row Hrow).
  pose proof (sum_list_insert (count_in_row x) b i row (<[j := v]> row) Hrow) as H1.
  pose proof (sum_list_insert (holds x) row j old v Hold) as H2.
  unfold count_in_row in *. lia.
Qed.

Lemma count_relocate x self piece captured i0 j0 i1 j1 :
  cell_at (_board self) i0 j0 = Some piece ->
  cell_at (_board self) i1 j1 = Some captured ->
  holds x captured = 0%nat -> holds x " " = 0%nat ->
  count_on_board x (_board (relocate self piece i0 j0 i1 j1)) = count_on_board x (_board self).
Proof.
  intros Hp Hc Hx Hblank. unfold relocate. simpl.
  assert (cell_at (put (_board self) i1 j1 piece) i0 j0 = Some piece) as Hmid.
  { destruct (decide ((i1, j1) = (i0, j0))) as [[= -> ->]|Hne].
    - by apply (cell_at_put_eq _ _ _ _ captured).
    - by rewrite cell_at_put_ne. }
  pose proof (count_put x (_board self) i1 j1 captured piece Hc) as H1.
  pose proof (count_put x (put (_board self) i1 j1 piece) i0 j0 piece " " Hmid) as H2.
  lia.
Qed.

Lemma count_pointwise x b b' :
  wf_board b -> wf_board b' ->
  (forall i j c c', cell_at b i j = Some c -> cell_at b' i j = Some c' ->
     holds x c = holds x c') ->
  count_on_board x b = count_on_board x b'.
Proof.
  intros Hwf Hwf' H. unfold count_on_board.
  apply sum_list_pointwise; [destruct Hwf, Hwf'; congruence|].
  intros i row row' Hrow Hrow'. unfold count_in_row.
  apply sum_list_pointwise.
  - by rewrite (wf_board_row b i row), (wf_board_row b' i row').
  - intros j c c' Hc Hc'. apply (H i j); unfold cell_at; by rewrite ?Hrow, ?Hrow'.
Qed.

Lemma king_verdict_unfinished o x :
  king_verdict o x = UNFINISHED -> o = UNFINISHED /\ is_king x = false.
Proof.
  unfold king_verdict. destruct (is_king x) eqn:Hk.
  - rewrite (king_is_not_pawn x Hk). simpl. destruct (Ascii.eqb x "K"); discriminate.
  - rewrite andb_false_r. done.
Qed.

Lemma foldl_verdict_unfinished o xs :
  foldl king_verdict o xs = UNFINISHED ->
  o = UNFINISHED /\ forall y, y ∈ xs -> is_king y = false.
Proof.
  revert o. induction xs as [|x xs IH]; intros o H; simpl in *.
  - split; [done|]. by intros y ?%not_elem_of_nil.
  - apply IH in H as [[-> Hx]%king_verdict_unfinished Hxs].
    split; [done|]. intros y [->|Hy]%elem_of_cons; auto.
Qed.

Lemma holds_not_king x c : is_king x = true -> is_king c = false -> holds x c = 0%nat.
Proof.
  intros Hx Hc. unfold holds. destruct (Ascii.eqb c x) eqn:E; [|done].
  apply Ascii.eqb_eq in E. congruence.
Qed.

Lemma cell_at_getitem2 b i j c :
  wf_board b -> cell_at b i j = Some c -> getitem2 b (Z.of_nat i) (Z.of_nat j) = Ret c.
Proof.
  intros Hwf Hc. destruct (cell_at_lt b i j c Hwf Hc) as [Hi Hj].
  apply getitem2_Ret; [done|]. exists i, j. by rewrite !norm_index_of_nat.
Qed.

Lemma exploded_kings x mid cells after :
  wf_board (_board mid) -> is_king x = true ->
  exploded mid cells after ->
  _game_state after = UNFINISHED ->
  _game_state mid = UNFINISHED /\
  count_on_board x (_board after) = count_on_board x (_board mid).
Proof.
  intros Hwf Hx (Hwf' & _ & Hb & Ho) Hst.
  rewrite Ho in Hst. apply foldl_verdict_unfinished in Hst as [Hmid Hcells].
  split; [done|]. symmetry. apply count_pointwise; [done..|].
  intros i j c c' Hc Hc'.
  destruct (cell_at_lt _ i j c Hwf Hc) as [Hi Hj].
  apply cell_at_getitem2 in Hc, Hc'; [|done..].
  rewrite Hb in Hc' by lia.
  assert (content (_board mid) (Z.of_nat i, Z.of_nat j) = c) as Hcont
    by (unfold content; simpl; by rewrite Hc).
  rewrite Hcont in Hc'. injection Hc' as <-.
  case_bool_decide as Hin; [|done].
  assert (is_king c = false) as Hk.
  { apply Hcells. rewrite <- Hcont. by apply list_elem_of_fmap_2. }
  rewrite (holds_not_king x c Hx Hk). unfold blast.
  destruct (is_pawn c); simpl; symmetry; by apply holds_not_king.
Qed.

Lemma make_move_kings x s n self r self' :
  wf_board (_board self) -> is_king x = true ->
  make_move s n self = (r, self') ->
  _game_state self' = UNFINISHED ->
  count_on_board x (_board self') = count_on_board x (_board self).
Proof.
  intros Hwf Hx Hrun Hst.
  destruct (make_move_cases s n self r self' Hwf Hrun)
    as [[-> _]|[_ (sr & sc & nr & nc & piece & i0 & j0 & Hst0 & _ & _ & Hnr & Hnc & _ & _
                    & Hcell & _ & Happ & _)]]; [done|].
  assert (Z.to_nat nr < 8 /\ Z.to_nat nc < 8)%nat as [Hi1 Hj1] by lia.
  destruct (applied_inv self piece i0 j0 _ _ self' Hwf Hi1 Hj1 Happ)
    as (captured & after & Hcap & -> & Hafter).
  rewrite finish_turn_state in Hst. rewrite finish_turn_board.
  destruct Hafter as [[-> ->]|[_ Hexp]].
  - apply (count_relocate x self piece " "); try done; by apply holds_not_king.
  - apply (exploded_kings x) in Hexp as [Hmid ->]; [|by do 2 apply wf_board_put|done..].
    simpl in Hmid. rewrite Hst0 in Hmid. unfold capture_verdict in Hmid.
    destruct (is_king captured) eqn:Hk; [discriminate|].
    apply (count_relocate x self piece captured); try done; by apply holds_not_king.
Qed.

(** ** One king each while the game is unfinished *)

Lemma make_move_preserves s n self r self' :
  wf_board (_board self) ->
  make_move s n self = (r, self') ->
  wf_board (_board self') /\
  (_game_state self' = UNFINISHED -> _game_state self = UNFINISHED).
Proof.
  intros Hwf Hrun.
  destruct (make_move_cases s n self r self' Hwf Hrun)
    as [[-> _]|[_ (sr & sc & nr & nc & piece & i0 & j0 & Hst0 & _ & _ & _ & _ & _ & _ & _ & _
                    & _ & Hwf')]]; [done|].
  done.
Qed.

Lemma reachable_kings self :
  reachable self ->
  wf_board (_board self) /\
  (_game_state self = UNFINISHED ->
     count_on_board "K" (_board self) = 1%nat /\ count_on_board "k" (_board self) = 1%nat).
Proof.
  induction 1 as [|self s n Hreach [Hwf Hkings]].
  - split; [apply wf_new_game|]. intros _. split; reflexivity.
  - destruct (make_move s n self) as [r self'] eqn:Hrun. simpl.
    destruct (make_move_preserves s n self r self' Hwf Hrun) as [Hwf' Hst].
    split; [done|]. intros Hst'.
    rewrite (make_move_kings "K" s n self r self'), (make_move_kings "k" s n self r self')
      by done.
    by apply Hkings, Hst.
Qed.

(** C9. In every game reached from the initial position by calls of
    [make_move]: while the outcome is Unfinished the board holds exactly
    one white king and exactly one black king; and a call after which
    the number of kings of either color has changed leaves a terminal
    outcome, after which no sequence of calls changes the game again. *)
Theorem one_king_each (self : ChessVar) :
  reachable self ->
  wf_board (_board self) /\
  (_game_state self = UNFINISHED ->
     count_on_board "K" (_board self) = 1%nat /\ count_on_board "k" (_board self) = 1%nat) /\
  (forall s n r self',
     make_move s n self = (r, self') ->
     count_on_board "K" (_board self') <> count_on_board "K" (_board self) \/
     count_on_board "k" (_board self') <> count_on_board "k" (_board self) ->
     _game_state self' <> UNFINISHED /\
     forall moves, snd (play self' moves) = self').
Proof.
  intros Hreach. destruct (reachable_kings self Hreach) as [Hwf Hkings].
  split; [done|]. split; [done|].
  intros s n r self' Hrun Hchanged.
  assert (_game_state self' <> UNFINISHED) as Hterm.
  { intros Hst. destruct Hchanged as [Hc|Hc]; apply Hc.
    - by apply (make_move_kings "K" s n self r self').
    - by apply (make_move_kings "k" s n self r self'). }
  split; [done|]. intros moves.
  induction moves as [|[s' n'] moves IH]; [done|].
  simpl. rewrite make_move_unfinished by done.
  destruct (play self' moves) as [rs self''] eqn:E. simpl in *. done.
Qed.

(** ** Legality and the turn *)

Lemma getitem2_content b r c :
  wf_board b -> 0 <= r < 8 -> 0 <= c < 8 -> getitem2 b r c = Ret (content b (r, c)).
Proof.
  intros Hwf Hr Hc. destruct (getitem2_on_board b r c Hwf Hr Hc) as [x Hx].
  unfold content. simpl. by rewrite Hx.
Qed.

Lemma pawn_by_turn b o piece start_row start_col next_row next_col :
  wf_board b -> is_pawn piece = true ->
  0 <= start_row < 8 -> 0 <= start_col < 8 -> 0 <= next_row < 8 -> 0 <= next_col < 8 ->
  _is_valid_move {| _board := b; _current_turn := color_of piece; _game_state := o |}
                 piece start_row start_col next_row next_col
  = Ret (Some (pawn_rule b piece start_row start_col next_row next_col)).
Proof.
  intros Hwf Hp Hsr Hsc Hnr Hnc.
  assert (Ascii.eqb (lower piece) "k" = false) as Hk.
  { apply is_pawn_iff in Hp as [-> | ->]; reflexivity. }
  unfold is_pawn in Hp.
  unfold _is_valid_move, pawn_rule, holds_enemy, empty_square, opposing_piece. cbv zeta.
  rewrite Hk, Hp. cbn [_board _current_turn].
  rewrite !(getitem2_content b next_row next_col) by done.
  assert (0 <= (start_row + next_row) / 2 < 8) as Hmid
    by (split; [apply Z.div_pos; lia | apply Z.div_lt_upper_bound; lia]).
  rewrite (getitem2_content b ((start_row + next_row) / 2) next_col) by done.
  clear Hmid.
  destruct (color_of piece) eqn:Hside; cbn [turn_eqb forward starting_rank andb orb];
    repeat match goal with
           | |- context [Z.eqb ?a ?b] => destruct (Z.eqb_spec a b)
           end;
    cbn [andb orb rbind negb]; try lia;
    try (replace ((start_row + next_row) / 2) with (start_row + -1) by (subst; reflexivity));
    try (replace ((start_row + next_row) / 2) with (start_row + 1) by (subst; reflexivity));
    repeat match goal with
           | |- context [Ascii.eqb ?a ?b] => destruct (Ascii.eqb a b)
           end;
    cbn [andb orb rbind negb]; try reflexivity.
Qed.

(** C4, as the code has it. The verdict on a piece that is not a pawn is
    the same whether the current turn is White or Black. A pawn's
    direction is taken from the current turn; when that turn is the
    pawn's own color the verdict is that of the pawn rule with the
    direction set by the color, and [make_move] consults legality for a
    pawn only when the turn is the pawn's color. *)
Theorem legality_and_turn :
  (forall b o piece start_row start_col next_row next_col,
     is_pawn piece = false ->
     _is_valid_move {| _board := b; _current_turn := W; _game_state := o |}
                    piece start_row start_col next_row next_col
     = _is_valid_move {| _board := b; _current_turn := B; _game_state := o |}
                      piece start_row start_col next_row next_col) /\
  (forall b o piece start_row start_col next_row next_col,
     wf_board b -> is_pawn piece = true ->
     0 <= start_row < 8 -> 0 <= start_col < 8 -> 0 <= next_row < 8 -> 0 <= next_col < 8 ->
     _is_valid_move {| _board := b; _current_turn := color_of piece; _game_state := o |}
                    piece start_row start_col next_row next_col
     = Ret (Some (pawn_rule b piece start_row start_col next_row next_col))) /\
  (forall s n self self',
     make_move s n self = (Ret true, self') ->
     exists start_row start_col next_row to_col piece,
       _convert_square_to_indices s = Ret (start_row, start_col) /\
       _convert_square_to_indices n = Ret (next_row, to_col) /\
       getitem2 (_board self) start_row start_col = Ret piece /\
       _is_valid_move self piece start_row start_col next_row to_col = Ret (Some true) /\
       (is_pawn piece = true -> _current_turn self = color_of piece)).
Proof.
  split; [|split].
  - intros b o piece sr sc nr nc Hp. unfold is_pawn in Hp.
    unfold _is_valid_move. cbv zeta. cbn [_board _current_turn].
    destruct (Ascii.eqb (lower piece) "k"); [done|]. by rewrite Hp.
  - intros. by apply pawn_by_turn.
  - intros s n self self' Hrun.
    destruct (make_move_inv s n self (Ret true) self' Hrun)
      as [[_ [?|[? ?]]]|(sr & sc & nr & nc & piece & _ & Es & En & _ & _ & Hp & Hl & Hu & Hv & _)];
      try discriminate.
    exists sr, sc, nr, nc, piece. do 4 (split; [done|]).
    intros [-> | ->]%is_pawn_iff; [by apply Hl | by apply Hu].
Qed.

(** ** Direct capture of a king *)

Lemma play_snd self s n moves :
  snd (play self ((s, n) :: moves)) = snd (play (snd (make_move s n self)) moves).
Proof.
  cbn [play]. destruct (make_move s n self) as [r self']. cbn [snd].
  by destruct (play self' moves).
Qed.

Lemma reachable_play self moves : reachable self -> reachable (snd (play self moves)).
Proof.
  revert self. induction moves as [|[s n] moves IH]; intros self Hreach; [done|].
  rewrite play_snd. by apply IH, reach_move.
Qed.

(** C1 fails on the code. After eight legal moves from the initial
    position a black knight takes the white king on e1; no other king is
    in the blast, the black king stays on the board, and the outcome
    recorded is WhiteWon although it is Black that captured the king. *)
Theorem black_takes_white_king :
  let before :=
    snd (play new_game [(str "a2", str "a3"); (str "b8", str "c6"); (str "a3", str "a4"); (str "c6", str "d4");
                        (str "a4", str "a5"); (str "d4", str "f3"); (str "a5", str "a6")]) in
  let after := snd (make_move (str "f3") (str "e1") before) in
  reachable before /\
  _game_state before = UNFINISHED /\
  _current_turn before = B /\
  getitem2 (_board before) 5 5 = Ret "n"%char /\
  getitem2 (_board before) 7 4 = Ret "K"%char /\
  fst (make_move (str "f3") (str "e1") before) = Ret true /\
  count_on_board "K" (_board after) = 0%nat /\
  count_on_board "k" (_board after) = 1%nat /\
  _game_state after = WHITE_WON.
Proof.
  cbv zeta. split; [|repeat split; vm_compute; reflexivity].
  apply reachable_play, reach_new.
Qed.

(** ** The knight *)

(** C2 fails on the code. In the initial position the white knight's move
    b1-d2, of shape (1,2), onto the white pawn on d2 is judged legal, and
    [make_move] applies it: the capture sets off the explosion, which
    destroys the white king. A knight move of shape (2,1) onto a piece
    of its own color is judged illegal. *)
Theorem knight_onto_own_piece :
  getitem2 (_board new_game) 7 1 = Ret "N"%char /\
  getitem2 (_board new_game) 6 3 = Ret "P"%char /\
  _is_valid_move new_game "N" 7 1 6 3 = Ret (Some true) /\
  fst (make_move (str "b1") (str "d2") new_game) = Ret true /\
  _game_state (snd (make_move (str "b1") (str "d2") new_game)) = BLACK_WON /\
  (let later := snd (play new_game [(str "a2", str "a3"); (str "a7", str "a6")]) in
   getitem2 (_board later) 5 0 = Ret "P"%char /\
   _is_valid_move later "N" 7 1 5 0 = Ret (Some false)).
Proof. repeat split; vm_compute; reflexivity. Qed.

(** * Further properties of the code *)

(** ** Square notation and indices *)

Lemma well_formed_converts square :
  well_formed_square square = true ->
  exists r c, _convert_square_to_indices square = Ret (r, c) /\ 0 <= r < 8 /\ 0 <= c < 8.
Proof.
  intros Hwf.
  assert (parses square = true) as Hp.
  { unfold well_formed_square, parses, isdecimal in *.
    destruct square as [|column [|row [|? ?]]]; try discriminate.
    change (ord "1") with 49 in Hwf. change (ord "8") with 56 in Hwf.
    rewrite !andb_true_iff in Hwf. apply orb_true_iff. left. apply andb_true_iff. lia. }
  destruct (convert_parses square Hp) as (r & c & Hconv).
  exists r, c. split; [done|]. by apply (convert_well_formed square r c Hconv).
Qed.

Lemma square_of_indices r c :
  on_board r c ->
  well_formed_square [c + 97; 56 - r] = true /\
  _convert_square_to_indices [c + 97; 56 - r] = Ret (r, c).
Proof.
  intros [Hr Hc]. split.
  - unfold well_formed_square.
    change (ord "a") with 97. change (ord "h") with 104.
    change (ord "1") with 49. change (ord "8") with 56.
    rewrite !andb_true_iff. lia.
  - unfold _convert_square_to_indices, int.
    replace ((48 <=? 56 - r) && (56 - r <=? 57)) with true
      by (symmetry; apply andb_true_iff; lia).
    simpl. change (ord "a") with 97. do 2 f_equal; lia.
Qed.

(** Every well-formed notation (file letter ['a'] to ['h'], rank digit
    ['1'] to ['8']) is turned into a square of the board, and every
    square of the board is named by a well-formed notation.  A string
    that [_convert_square_to_indices] accepts lands on a row from -1 to
    8; it lands on the board exactly when its first character is a file
    letter ['a'] to ['h'] and its second a decimal digit, of any script,
    of value 1 to 8. *)
Theorem convert_square_on_board :
  (forall square, well_formed_square square = true ->
     exists r c, _convert_square_to_indices square = Ret (r, c) /\ on_board r c) /\
  (forall r c, on_board r c ->
     exists square, well_formed_square square = true /\
                    _convert_square_to_indices square = Ret (r, c)) /\
  (forall square r c, _convert_square_to_indices square = Ret (r, c) ->
     -1 <= r <= 8 /\
     (on_board r c <->
      exists column row d, square = [column; row] /\ ord "a" <= column <= ord "h" /\
        int unicode_decimal row = Ret d /\ 1 <= d <= 8)).
Proof.
  split; [|split].
  - intros square (r & c & Hconv & Hr & Hc)%well_formed_converts. by exists r, c.
  - intros r c Hon. exists [c + 97; 56 - r]. by apply square_of_indices.
  - intros square r c (column & row & d & -> & Hd & -> & ->)%convert_Ret_inv.
    pose proof (int_digit row d Hd) as Hrange.
    change (ord "a") with 97. change (ord "h") with 104. unfold on_board.
    split; [lia|]. split.
    + intros [Hr Hc]. exists column, row, d. split; [done|]. split; [lia|]. split; [done|lia].
    + intros (column' & row' & d' & [= <- <-] & Hcol & Hd' & Hval).
      rewrite Hd in Hd'. injection Hd' as <-. lia.
Qed.

(** Two strings that [_convert_square_to_indices] sends to the same
    indices have the same first character, and second characters that
    are decimal digits of the same value; two ASCII strings sent to the
    same indices are the same string.  (Rank digits of different scripts
    name the same row.) *)
Theorem convert_square_injective (s s' : list Z) (r c : Z) :
  _convert_square_to_indices s = Ret (r, c) ->
  _convert_square_to_indices s' = Ret (r, c) ->
  (exists column row row' d,
     s = [column; row] /\ s' = [column; row'] /\
     int unicode_decimal row = Ret d /\ int unicode_decimal row' = Ret d) /\
  (isascii s = true -> isascii s' = true -> s = s').
Proof.
  intros (column & row & d & -> & Hd & -> & ->)%convert_Ret_inv
         (column' & row' & d' & -> & Hd' & Hr & Hc)%convert_Ret_inv.
  assert (d' = d) as -> by lia. assert (column' = column) as -> by lia.
  split; [by exists column, row, row', d|].
  unfold isascii. simpl. rewrite !andb_true_iff, !Z.ltb_lt.
  intros (_ & Hrow & _) (_ & Hrow' & _).
  apply int_ascii in Hd; [|done]. apply int_ascii in Hd'; [|done].
  do 2 f_equal. lia.
Qed.

(** ** The entry gate of [make_move] *)

Lemma norm_index_range len i k :
  norm_index len i = Some k -> - Z.of_nat len <= i < Z.of_nat len.
Proof.
  unfold norm_index.
  destruct ((0 <=? i) && (i <? Z.of_nat len)) eqn:E1.
  - apply andb_true_iff in E1 as [? ?]. lia.
  - destruct ((- Z.of_nat len <=? i) && (i <? 0)) eqn:E2; [|discriminate].
    apply andb_true_iff in E2 as [? ?]. lia.
Qed.

Lemma gate_rejects s n self start_row start_col piece :
  _convert_square_to_indices s = Ret (start_row, start_col) ->
  getitem2 (_board self) start_row start_col = Ret piece ->
  piece = " "%char \/
  (islower piece = true /\ _current_turn self = W) \/
  (isupper piece = true /\ _current_turn self = B) ->
  (parses n = true \/ _game_state self <> UNFINISHED ->
     make_move s n self = (Ret false, self)) /\
  (_game_state self = UNFINISHED -> parses n = false ->
     make_move s n self = (Raise ValueError, self)).
Proof.
  intros Es Hp Hside. split.
  - intros Hn. rewrite make_move_eq. unfold bind, read, eval, square, ret.
    destruct (game_state_eqb (_game_state self) UNFINISHED) eqn:Hst; [|done]. simpl.
    apply game_state_eqb_eq in Hst. destruct Hn as [Hn|Hn]; [|done].
    destruct (convert_parses n Hn) as (next_row & to_col & En).
    rewrite Es, En.
    destruct ((0 <=? next_row) && (next_row <? 8) && (0 <=? to_col) && (to_col <? 8)); [|done].
    simpl. rewrite Hp.
    destruct Hside as [->|[[-> ->]|[-> ->]]]; [|done|simpl; by rewrite orb_true_r].
    change (islower " ") with false. change (isupper " ") with false.
    cbn [andb orb]. cbn beta iota. by rewrite is_valid_move_blank.
  - intros Hst Hn. rewrite make_move_eq. unfold bind, read, eval, ret.
    rewrite Hst, Es. simpl. by rewrite (convert_not_parses n Hn).
Qed.

(** A call whose origin is turned into indices at which the board holds
    the blank never changes the board, the turn or the outcome.  It
    returns [False] whenever the destination string parses or the game
    is over: [' '] passes the ownership test (it is neither lower nor
    upper case) and falls through every branch of [_is_valid_move].  On
    an unfinished game with a destination that does not parse it raises
    [ValueError], since both strings are converted before the origin is
    looked at. *)
Theorem empty_origin_rejected (self : ChessVar) (s n : list Z) (start_row start_col : Z) :
  _convert_square_to_indices s = Ret (start_row, start_col) ->
  getitem2 (_board self) start_row start_col = Ret " "%char ->
  (parses n = true \/ _game_state self <> UNFINISHED ->
     make_move s n self = (Ret false, self)) /\
  (_game_state self = UNFINISHED -> parses n = false ->
     make_move s n self = (Raise ValueError, self)).
Proof.
  intros Es Hp. apply (gate_rejects s n self start_row start_col " "); auto.
Qed.

(** A call that names a piece of the side not to move (a lower-case
    piece on White's turn, an upper-case piece on Black's) never changes
    the board, the turn or the outcome.  It returns [False] whenever the
    destination string parses or the game is over; on an unfinished game
    with a destination that does not parse it raises [ValueError], since
    both strings are converted before the origin is looked at. *)
Theorem wrong_side_rejected (self : ChessVar) (s n : list Z) (start_row start_col : Z)
    (piece : ascii) :
  _convert_square_to_indices s = Ret (start_row, start_col) ->
  getitem2 (_board self) start_row start_col = Ret piece ->
  (islower piece = true /\ _current_turn self = W) \/
  (isupper piece = true /\ _current_turn self = B) ->
  (parses n = true \/ _game_state self <> UNFINISHED ->
     make_move s n self = (Ret false, self)) /\
  (_game_state self = UNFINISHED -> parses n = false ->
     make_move s n self = (Raise ValueError, self)).
Proof.
  intros Es Hp Hside. apply (gate_rejects s n self start_row start_col piece); auto.
Qed.


(** ** What a legal verdict implies *)

Lemma rbind_Ret_inv {A C} (m : res A) (k : A -> res C) v :
  rbind m k = Ret v -> exists a, m = Ret a /\ k a = Ret v.
Proof. destruct m; simpl; [eauto | discriminate | discriminate]. Qed.

Lemma empty_or_enemy_true b piece r c :
  empty_or_enemy b piece r c = Ret true -> target_free b piece r c.
Proof.
  unfold empty_or_enemy, target_free.
  intros (x & Hx & H)%rbind_Ret_inv. exists x. split; [done|].
  destruct (Ascii.eqb x " ") eqn:E; [left; by apply Ascii.eqb_eq|right].
  rewrite Hx in H. simpl in H. injection H as H.
  intros Heq. rewrite Heq in H. by destruct (islower piece).
Qed.

Lemma holds_enemy_true b piece r c :
  holds_enemy b piece r c = Ret true ->
  exists x, getitem2 b r c = Ret x /\ x <> " "%char /\ islower x <> islower piece.
Proof.
  unfold holds_enemy.
  intros (x & Hx & H)%rbind_Ret_inv. exists x. split; [done|].
  destruct (Ascii.eqb x " ") eqn:E; [discriminate|].
  apply Ascii.eqb_neq in E. split; [done|].
  rewrite Hx in H. simpl in H. injection H as H.
  intros Heq. rewrite Heq in H. by destruct (islower piece).
Qed.

Lemma tail_true (m : res bool) :
  (let* ok := m in Ret (Some ok)) = Ret (Some true) -> m = Ret true.
Proof. destruct m as [[]| |]; simpl; congruence. Qed.

Lemma blocked_false (m : res bool) (k : res (option bool)) v :
  (let* blocked := m in if blocked then Ret (Some false) else k) = Ret (Some true) ->
  v = Some true -> m = Ret false /\ k = Ret v.
Proof. intros H ->. destruct m as [[]| |]; simpl in H; try discriminate. done. Qed.

Lemma for_return_false {A} (xs : list A) body :
  for_return xs body = Ret false -> forall x, x ∈ xs -> body x = Ret false.
Proof.
  induction xs as [|a xs IH]; intros H x Hx; [by apply not_elem_of_nil in Hx|].
  simpl in H. apply rbind_Ret_inv in H as ([] & Ha & H); [discriminate|].
  apply elem_of_cons in Hx as [->|Hx]; [done|]. by apply IH.
Qed.

Lemma blank_of_negb x : Ret (negb (Ascii.eqb x " ")) = Ret false -> x = " "%char.
Proof.
  intros [= H]. apply Ascii.eqb_eq. by destruct (Ascii.eqb x " ").
Qed.

(** A scan along a row or a column that did not return found blanks
    only. *)
Lemma scan_clear (body : Z -> res bool) (get : Z -> res ascii) start stop :
  for_return (range (start + (if start <? stop then 1 else -1)) stop
                    (if start <? stop then 1 else -1)) body = Ret false ->
  (forall x, body x = Ret false -> get x = Ret " "%char) ->
  forall t, 0 < t < Z.abs (stop - start) -> get (start + t * Z.sgn (stop - start)) = Ret " "%char.
Proof.
  intros Hscan Hbody t Ht. apply Hbody. apply (for_return_false _ _ Hscan).
  destruct (start <? stop) eqn:E.
  - apply Z.ltb_lt in E. rewrite Z.sgn_pos by lia. apply elem_of_range_1. lia.
  - apply Z.ltb_ge in E. rewrite Z.sgn_neg by lia. apply elem_of_range_m1. lia.
Qed.

Lemma diagonal_walk_false fuel b row col next_row row_step col_step :
  diagonal_walk fuel b row col next_row row_step col_step = Ret false ->
  exists k : nat,
    next_row = row + row_step * Z.of_nat k /\
    forall t, 0 <= t < Z.of_nat k ->
      getitem2 b (row + row_step * t) (col + col_step * t) = Ret " "%char.
Proof.
  revert row col. induction fuel as [|fuel IH]; intros row col; simpl.
  - destruct (Z.eqb_spec row next_row) as [->|Hne]; [|discriminate].
    intros _. exists 0%nat. split; [lia|]. intros t Ht. lia.
  - destruct (Z.eqb_spec row next_row) as [->|Hne].
    + intros _. exists 0%nat. split; [lia|]. intros t Ht. lia.
    + intros (x & Hx & H)%rbind_Ret_inv.
      destruct (Ascii.eqb x " ") eqn:E; [|discriminate]. simpl in H.
      apply Ascii.eqb_eq in E. subst x.
      apply IH in H as (k & Hk & Hcells). exists (S k). split; [lia|].
      intros t Ht. destruct (Z.eq_dec t 0) as [->|Hnz].
      * by rewrite !Z.mul_0_r, !Z.add_0_r.
      * specialize (Hcells (t - 1)).
        replace (row + row_step + row_step * (t - 1)) with (row + row_step * t) in Hcells by lia.
        replace (col + col_step + col_step * (t - 1)) with (col + col_step * t) in Hcells by lia.
        apply Hcells. lia.
Qed.

Lemma diagonal_clear fuel b start_row start_col next_row next_col :
  Z.abs (start_row - next_row) = Z.abs (start_col - next_col) ->
  diagonal_walk fuel b
    (start_row + (if start_row <? next_row then 1 else -1))
    (start_col + (if start_col <? next_col then 1 else -1))
    next_row
    (if start_row <? next_row then 1 else -1)
    (if start_col <? next_col then 1 else -1) = Ret false ->
  path_clear b start_row start_col next_row next_col.
Proof.
  intros Habs (k & Hk & Hcells)%diagonal_walk_false t Ht.
  specialize (Hcells (t - 1)).
  destruct (start_row <? next_row) eqn:Er; [apply Z.ltb_lt in Er | apply Z.ltb_ge in Er];
    (destruct (start_col <? next_col) eqn:Ec; [apply Z.ltb_lt in Ec | apply Z.ltb_ge in Ec]).
  - rewrite !Z.sgn_pos by lia.
    replace (start_row + t * 1) with (start_row + 1 + 1 * (t - 1)) by lia.
    replace (start_col + t * 1) with (start_col + 1 + 1 * (t - 1)) by lia.
    apply Hcells. lia.
  - rewrite Z.sgn_pos, Z.sgn_neg by lia.
    replace (start_row + t * 1) with (start_row + 1 + 1 * (t - 1)) by lia.
    replace (start_col + t * -1) with (start_col + -1 + -1 * (t - 1)) by lia.
    apply Hcells. lia.
  - rewrite Z.sgn_neg, Z.sgn_pos by lia.
    replace (start_row + t * -1) with (start_row + -1 + -1 * (t - 1)) by lia.
    replace (start_col + t * 1) with (start_col + 1 + 1 * (t - 1)) by lia.
    apply Hcells. lia.
  - rewrite !Z.sgn_neg by lia.
    replace (start_row + t * -1) with (start_row + -1 + -1 * (t - 1)) by lia.
    replace (start_col + t * -1) with (start_col + -1 + -1 * (t - 1)) by lia.
    apply Hcells. lia.
Qed.

(** The branches of [_is_valid_move] that answer [True], with what each
    has checked. *)
Lemma is_valid_move_true_inv self piece start_row start_col next_row next_col :
  _is_valid_move self piece start_row start_col next_row next_col = Ret (Some true) ->
  let b := _board self in
  let forward_one :=
    (_current_turn self = W /\ start_row - next_row = 1) \/
    (_current_turn self = B /\ next_row - start_row = 1) in
  (lower piece = "k"%char /\
   Z.abs (start_row - next_row) <= 1 /\ Z.abs (start_col - next_col) <= 1 /\
   target_free b piece next_row next_col) \/
  (lower piece = "p"%char /\ start_col = next_col /\ forward_one /\
   getitem2 b next_row next_col = Ret " "%char) \/
  (lower piece = "p"%char /\ start_col = next_col /\
   ((_current_turn self = W /\ start_row = 6 /\ next_row = 4) \/
    (_current_turn self = B /\ start_row = 1 /\ next_row = 3)) /\
   getitem2 b next_row next_col = Ret " "%char /\
   getitem2 b ((start_row + next_row) / 2) next_col = Ret " "%char) \/
  (lower piece = "p"%char /\ Z.abs (start_col - next_col) = 1 /\ forward_one /\
   exists x, getitem2 b next_row next_col = Ret x /\ x <> " "%char /\
             islower x <> islower piece) \/
  (lower piece = "r"%char /\ (start_row = next_row \/ start_col = next_col) /\
   path_clear b start_row start_col next_row next_col /\
   target_free b piece next_row next_col) \/
  (lower piece = "n"%char /\
   Z.abs (next_row - start_row) = 1 /\ Z.abs (next_col - start_col) = 2) \/
  (lower piece = "n"%char /\
   Z.abs (next_row - start_row) = 2 /\ Z.abs (next_col - start_col) = 1 /\
   target_free b piece next_row next_col) \/
  (lower piece = "b"%char /\
   Z.abs (start_row - next_row) = Z.abs (start_col - next_col) /\
   path_clear b start_row start_col next_row next_col /\
   target_free b piece next_row next_col) \/
  (lower piece = "q"%char /\
   (start_row = next_row \/ start_col = next_col \/
    Z.abs (start_row - next_row) = Z.abs (start_col - next_col)) /\
   path_clear b start_row start_col next_row next_col /\
   target_free b piece next_row next_col).
Proof.
  cbv zeta. unfold _is_valid_move. cbv zeta.
  set (b := _board self).
  assert (forall start stop (get : Z -> res ascii),
            start_row = next_row -> start = start_col -> stop = next_col ->
            (forall t, 0 < t < Z.abs (stop - start) ->
               get (start + t * Z.sgn (stop - start)) = Ret " "%char) ->
            (forall c, get c = getitem2 b start_row c) ->
            path_clear b start_row start_col next_row next_col) as Hrow.
  { intros start stop get Hr -> -> Hcells Hget t Ht. subst next_row.
    rewrite Z.sub_diag. change (Z.sgn 0) with 0. rewrite Z.mul_0_r, Z.add_0_r.
    rewrite <- Hget. apply Hcells. rewrite Z.sub_diag in Ht. lia. }
  assert (forall start stop (get : Z -> res ascii),
            start_col = next_col -> start = start_row -> stop = next_row ->
            (forall t, 0 < t < Z.abs (stop - start) ->
               get (start + t * Z.sgn (stop - start)) = Ret " "%char) ->
            (forall r, get r = getitem2 b r start_col) ->
            path_clear b start_row start_col next_row next_col) as Hcol.
  { intros start stop get Hc -> -> Hcells Hget t Ht. subst next_col.
    rewrite Z.sub_diag. change (Z.sgn 0) with 0. rewrite Z.mul_0_r, Z.add_0_r.
    rewrite <- Hget. apply Hcells. rewrite Z.sub_diag in Ht. lia. }
  destruct (Ascii.eqb (lower piece) "k") eqn:Ek.
  { apply Ascii.eqb_eq in Ek.
    destruct ((Z.abs (start_row - next_row) <=? 1) && (Z.abs (start_col - next_col) <=? 1))
      eqn:E; [|discriminate].
    apply andb_true_iff in E as [E1%Z.leb_le E2%Z.leb_le].
    intros H%tail_true%empty_or_enemy_true. left. done. }
  destruct (Ascii.eqb (lower piece) "p") eqn:Ep.
  { apply Ascii.eqb_eq in Ep.
    destruct (Z.eqb_spec start_col next_col) as [Hc|Hc].
    - destruct (turn_eqb (_current_turn self) W && (start_row - next_row =? 1)
                || turn_eqb (_current_turn self) B && (next_row - start_row =? 1)) eqn:E1.
      { intros (x & Hx & [= Hb])%rbind_Ret_inv. apply Ascii.eqb_eq in Hb. subst x.
        right. left. do 2 (split; [done|]). split; [|done].
        apply orb_true_iff in E1 as [E1|E1]; apply andb_true_iff in E1 as [Ht E1%Z.eqb_eq];
          destruct (_current_turn self); try discriminate; auto. }
      destruct (turn_eqb (_current_turn self) W && (start_row =? 6) && (next_row =? 4)
                || turn_eqb (_current_turn self) B && (start_row =? 1) && (next_row =? 3))
        eqn:E2; [|discriminate].
      intros (x & Hx & H)%rbind_Ret_inv.
      destruct (Ascii.eqb x " ") eqn:Eb; [|discriminate].
      apply Ascii.eqb_eq in Eb. subst x.
      apply rbind_Ret_inv in H as (y & Hy & [= Hb]). apply Ascii.eqb_eq in Hb. subst y.
      do 2 right. left. do 2 (split; [done|]). split; [|done].
      apply orb_true_iff in E2 as [E2|E2];
        apply andb_true_iff in E2 as [[Ht Ea%Z.eqb_eq]%andb_true_iff Eb%Z.eqb_eq];
        destruct (_current_turn self); try discriminate; auto.
    - destruct ((Z.abs (start_col - next_col) =? 1)
                && (turn_eqb (_current_turn self) W && (start_row - next_row =? 1)
                    || turn_eqb (_current_turn self) B && (next_row - start_row =? 1)))
        eqn:E; [|discriminate].
      apply andb_true_iff in E as [Ea%Z.eqb_eq E1].
      intros H%tail_true%holds_enemy_true.
      do 3 right. left. do 2 (split; [done|]). split; [|done].
      apply orb_true_iff in E1 as [E1|E1]; apply andb_true_iff in E1 as [Ht E1%Z.eqb_eq];
        destruct (_current_turn self); try discriminate; auto. }
  destruct (Ascii.eqb (lower piece) "r") eqn:Er.
  { apply Ascii.eqb_eq in Er.
    destruct (Z.eqb_spec start_row next_row) as [Hr|Hr].
    - cbn [negb andb].
      intros [Hscan H%tail_true%empty_or_enemy_true]%(blocked_false _ _ (Some true)); [|done].
      do 4 right. left. do 2 (split; [auto|]). split; [|done].
      apply (Hrow start_col next_col (fun c => getitem2 b start_row c)); try done.
      apply (scan_clear _ _ _ _ Hscan). intros c Hbody.
      destruct (negb ((0 <=? c) && (c <? 8))); [discriminate|].
      apply rbind_Ret_inv in Hbody as (x & Hx & ->%blank_of_negb). done.
    - destruct (Z.eqb_spec start_col next_col) as [Hc|Hc]; cbn [negb andb]; [|discriminate].
      intros [Hscan H%tail_true%empty_or_enemy_true]%(blocked_false _ _ (Some true)); [|done].
      do 4 right. left. do 2 (split; [auto|]). split; [|done].
      apply (Hcol start_row next_row (fun r => getitem2 b r start_col)); try done.
      apply (scan_clear _ (fun r => getitem2 b r start_col) _ _ Hscan). intros r Hbody.
      destruct (negb ((0 <=? r) && (r <? 8))); [discriminate|].
      apply rbind_Ret_inv in Hbody as (x & Hx & ->%blank_of_negb). done. }
  destruct (Ascii.eqb (lower piece) "n") eqn:En.
  { apply Ascii.eqb_eq in En.
    destruct ((Z.abs (next_row - start_row) =? 1) && (Z.abs (next_col - start_col) =? 2)) eqn:E1.
    { apply andb_true_iff in E1 as [Ea%Z.eqb_eq Eb%Z.eqb_eq]. intros _. do 5 right. left. done. }
    destruct ((Z.abs (next_row - start_row) =? 2) && (Z.abs (next_col - start_col) =? 1)) eqn:E2;
      [|discriminate].
    apply andb_true_iff in E2 as [Ea%Z.eqb_eq Eb%Z.eqb_eq].
    intros H%tail_true%empty_or_enemy_true. do 6 right. left. done. }
  destruct (Ascii.eqb (lower piece) "b") eqn:Eb.
  { apply Ascii.eqb_eq in Eb.
    destruct (Z.eqb_spec (Z.abs (start_row - next_row)) (Z.abs (start_col - next_col)))
      as [Habs|Habs]; cbn [negb]; [|discriminate].
    intros [Hwalk H%tail_true%empty_or_enemy_true]%(blocked_false _ _ (Some true)); [|done].
    do 7 right. left. do 2 (split; [done|]). split; [|done].
    by apply (diagonal_clear (walk_fuel b)). }
  destruct (Ascii.eqb (lower piece) "q") eqn:Eq; [|discriminate].
  apply Ascii.eqb_eq in Eq.
  intros ([] & Hverdict & H)%rbind_Ret_inv; [|discriminate].
  apply tail_true, empty_or_enemy_true in H.
  do 8 right. split; [done|].
  destruct (Z.eqb_spec start_row next_row) as [Hr|Hr].
  { apply rbind_Ret_inv in Hverdict as (blocked & Hscan & Hneg).
    destruct blocked; [discriminate Hneg|]. clear Hneg.
    split; [auto|]. split; [|done].
    apply (Hrow start_col next_col (fun c => getitem2 b start_row c)); try done.
    apply (scan_clear _ _ _ _ Hscan). intros c Hbody.
    apply rbind_Ret_inv in Hbody as (x & Hx & ->%blank_of_negb). done. }
  destruct (Z.eqb_spec start_col next_col) as [Hc|Hc].
  { apply rbind_Ret_inv in Hverdict as (blocked & Hscan & Hneg).
    destruct blocked; [discriminate Hneg|]. clear Hneg.
    split; [auto|]. split; [|done].
    apply (Hcol start_row next_row (fun r => getitem2 b r start_col)); try done.
    apply (scan_clear _ (fun r => getitem2 b r start_col) _ _ Hscan). intros r Hbody.
    apply rbind_Ret_inv in Hbody as (x & Hx & ->%blank_of_negb). done. }
  destruct (Z.eqb_spec (Z.abs (start_row - next_row)) (Z.abs (start_col - next_col)))
    as [Habs|Habs]; [|discriminate].
  apply rbind_Ret_inv in Hverdict as (blocked & Hwalk & Hneg).
  destruct blocked; [discriminate Hneg|]. clear Hneg.
  split; [auto|]. split; [|done].
  by apply (diagonal_clear (walk_fuel b)).
Qed.

(** Between two squares of the board (indices from 0 to 7, so that no
    index counts from the end of a list), every move [_is_valid_move]
    judges legal has the movement pattern of its piece: a king one step,
    a rook along its row or column, a bishop along a diagonal, a queen
    either, a knight (1,2) or (2,1), a pawn one row towards the far side
    of the side to move (or two from its starting row, in its own
    column) and at most one column aside. *)
Theorem legal_move_geometry (self : ChessVar) (piece : ascii)
    (start_row start_col next_row next_col : Z) :
  on_board start_row start_col ->
  on_board next_row next_col ->
  _is_valid_move self piece start_row start_col next_row next_col = Ret (Some true) ->
  piece_geometry (_current_turn self) piece start_row start_col next_row next_col.
Proof.
  intros _ _ H. apply is_valid_move_true_inv in H. cbv zeta in H. unfold piece_geometry.
  destruct H as [(? & ? & ? & _)|[(? & ? & Hf & _)|[(? & ? & Hd & _)|[(? & ? & Hf & _)|
                [(? & ? & _)|[(? & ? & ?)|[(? & ? & ? & _)|[(? & ? & _)|(? & ? & _)]]]]]]]].
  - left. done.
  - right. left. split; [done|]. split; [lia|].
    destruct Hf as [[? ?]|[? ?]]; [left|right]; auto.
  - right. left. split; [done|]. split; [lia|].
    destruct Hd as [(? & ? & ?)|(? & ? & ?)]; [left|right]; auto.
  - right. left. split; [done|]. split; [lia|].
    destruct Hf as [[? ?]|[? ?]]; [left|right]; auto.
  - do 2 right. left. done.
  - do 3 right. left. auto.
  - do 3 right. left. auto.
  - do 4 right. left. done.
  - do 5 right. done.
Qed.

(** No self-capture, with the one exception the code has: a move judged
    legal ends on a square that is blank or holds a letter of the other
    case, unless it is a knight's move of shape (1,2), for which the
    destination is not looked at. *)
Theorem legal_target_free (self : ChessVar) (piece : ascii)
    (start_row start_col next_row next_col : Z) :
  _is_valid_move self piece start_row start_col next_row next_col = Ret (Some true) ->
  (lower piece = "n"%char /\
   Z.abs (next_row - start_row) = 1 /\ Z.abs (next_col - start_col) = 2) \/
  target_free (_board self) piece next_row next_col.
Proof.
  intros H. apply is_valid_move_true_inv in H. cbv zeta in H.
  destruct H as [(_ & _ & _ & H)|[(_ & _ & _ & H)|[(_ & _ & _ & H & _)|[(_ & _ & _ & H)|
                [(_ & _ & _ & H)|[H|[(_ & _ & _ & H)|[(_ & _ & _ & H)|(_ & _ & _ & H)]]]]]]]];
    try (by right); try (by left).
  - right. exists " "%char. auto.
  - right. exists " "%char. auto.
  - right. destruct H as (x & Hx & _ & Hcase). exists x. auto.
Qed.

(** Sliding pieces never jump: when a rook, bishop or queen move
    between two squares of the board (indices from 0 to 7) is judged
    legal, every square strictly between origin and destination is
    blank. *)
Theorem sliding_path_clear (self : ChessVar) (piece : ascii)
    (start_row start_col next_row next_col : Z) :
  on_board start_row start_col ->
  on_board next_row next_col ->
  _is_valid_move self piece start_row start_col next_row next_col = Ret (Some true) ->
  lower piece = "r"%char \/ lower piece = "b"%char \/ lower piece = "q"%char ->
  path_clear (_board self) start_row start_col next_row next_col.
Proof.
  intros _ _ H Hkind. apply is_valid_move_true_inv in H. cbv zeta in H.
  destruct H as [(Hl & _)|[(Hl & _)|[(Hl & _)|[(Hl & _)|
                [(_ & _ & H & _)|[(Hl & _)|[(Hl & _)|[(_ & _ & H & _)|(_ & _ & H & _)]]]]]]]];
    try done; rewrite Hl in Hkind; destruct Hkind as [?|[?|?]]; discriminate.
Qed.

(** ** Origin and destination are different squares *)

Lemma lower_letter_not_blank piece letter :
  lower piece = letter -> letter <> " "%char -> piece <> " "%char.
Proof. intros H Hl ->. by apply Hl. Qed.

Lemma target_free_self b piece r c :
  getitem2 b r c = Ret piece -> piece <> " "%char -> ~ target_free b piece r c.
Proof.
  intros Hget Hnb (x & Hx & Hcase). rewrite Hget in Hx. injection Hx as <-.
  destruct Hcase as [?|?]; done.
Qed.

(** A move judged legal for the piece standing on its origin never ends
    on the square it starts from, also when the origin is written with
    negative indices: the square it ends on is another square. *)
Lemma legal_move_leaves_origin self piece start_row start_col next_row next_col i0 j0 :
  wf_board (_board self) ->
  _is_valid_move self piece start_row start_col next_row next_col = Ret (Some true) ->
  norm_index 8 start_row = Some i0 -> norm_index 8 start_col = Some j0 ->
  cell_at (_board self) i0 j0 = Some piece ->
  0 <= next_row < 8 -> 0 <= next_col < 8 ->
  (i0, j0) <> (Z.to_nat next_row, Z.to_nat next_col).
Proof.
  intros Hwf Hv Hi0 Hj0 Hcell Hnr Hnc [= -> ->].
  assert (getitem2 (_board self) next_row next_col = Ret piece) as Hdest.
  { apply getitem2_Ret; [done|]. exists (Z.to_nat next_row), (Z.to_nat next_col).
    by rewrite !norm_index_nonneg. }
  assert (start_row = next_row \/ start_row = next_row - 8) as Hrow.
  { pose proof (norm_index_range 8 start_row _ Hi0) as Hr.
    destruct (Z.neg_nonneg_cases start_row).
    - rewrite norm_index_neg in Hi0 by lia. injection Hi0 as Hi0. lia.
    - rewrite norm_index_nonneg in Hi0 by lia. injection Hi0 as Hi0. lia. }
  assert (start_col = next_col \/ start_col = next_col - 8) as Hcol.
  { pose proof (norm_index_range 8 start_col _ Hj0) as Hr.
    destruct (Z.neg_nonneg_cases start_col).
    - rewrite norm_index_neg in Hj0 by lia. injection Hj0 as Hj0. lia.
    - rewrite norm_index_nonneg in Hj0 by lia. injection Hj0 as Hj0. lia. }
  apply is_valid_move_true_inv in Hv. cbv zeta in Hv.
  destruct Hv as [(Hl & _ & _ & H)|[(Hl & _ & _ & H)|[(Hl & _ & _ & H & _)|[(Hl & _ & _ & H)|
                 [(Hl & _ & _ & H)|[(_ & H1 & H2)|[(Hl & _ & _ & H)|[(Hl & _ & _ & H)
                 |(Hl & _ & _ & H)]]]]]]]].
  - apply (target_free_self _ piece _ _ Hdest); [|done].
    by apply (lower_letter_not_blank piece "k").
  - rewrite Hdest in H. injection H as ->. discriminate Hl.
  - rewrite Hdest in H. injection H as ->. discriminate Hl.
  - destruct H as (x & Hx & _ & Hcase). rewrite Hdest in Hx. by injection Hx as <-.
  - apply (target_free_self _ piece _ _ Hdest); [|done].
    by apply (lower_letter_not_blank piece "r").
  - lia.
  - apply (target_free_self _ piece _ _ Hdest); [|done].
    by apply (lower_letter_not_blank piece "n").
  - apply (target_free_self _ piece _ _ Hdest); [|done].
    by apply (lower_letter_not_blank piece "b").
  - apply (target_free_self _ piece _ _ Hdest); [|done].
    by apply (lower_letter_not_blank piece "q").
Qed.

(** A call that names the same square as origin and destination is
    rejected for every piece and leaves the game as it was. (For the
    bishop the diagonal loop then runs off the edge, wraps around the
    board and is stopped by the bishop itself.) *)
Theorem stationary_move_rejected (self : ChessVar) (s : list Z) :
  wf_board (_board self) ->
  well_formed_square s = true ->
  make_move s s self = (Ret false, self).
Proof.
  intros Hwf Hs.
  destruct (well_formed_converts s Hs) as (r & c & Es & Hr & Hc).
  destruct (getitem2_on_board (_board self) r c Hwf Hr Hc) as [piece Hp].
  destruct (is_valid_move_ok self piece r c r c Hwf Hr Hc Hr Hc Hp) as [v Hv].
  assert (truthy v = false) as Hfalse.
  { destruct v as [[]|]; try done. exfalso.
    apply getitem2_Ret in Hp as (i0 & j0 & Hi0 & Hj0 & Hcell); [|done].
    apply (legal_move_leaves_origin self piece r c r c i0 j0); try done.
    rewrite norm_index_nonneg in Hi0, Hj0 by done. congruence. }
  rewrite make_move_eq. unfold bind, read, eval, square, ret.
  destruct (game_state_eqb (_game_state self) UNFINISHED); [|done]. simpl.
  rewrite Es.
  destruct ((0 <=? r) && (r <? 8) && (0 <=? c) && (c <? 8)); [|done]. simpl.
  rewrite Hp.
  destruct (islower piece && turn_eqb (_current_turn self) W
            || isupper piece && turn_eqb (_current_turn self) B); [done|].
  rewrite Hv. by rewrite Hfalse.
Qed.

(** ** Termination *)

(** [_is_valid_move] always comes to an end, on every board and for all
    indices: the [while] loop of the diagonal walk stops at the target
    row, at a piece, or at the [IndexError] of a row it has run off to.
    On a game, so does [make_move]: it returns a boolean or raises. *)
Theorem make_move_terminates :
  (forall self piece start_row start_col next_row next_col,
     _is_valid_move self piece start_row start_col next_row next_col <> NoFuel) /\
  (forall self s n,
     wf_board (_board self) ->
     exists out, fst (make_move s n self) = out /\
                 ((exists v, out = Ret v) \/ (exists e, out = Raise e))).
Proof.
  split; [intros; apply is_valid_move_total|].
  intros self s n Hwf. destruct (make_move s n self) as [r self'] eqn:Hrun.
  exists r. split; [done|].
  destruct (make_move_cases s n self r self' Hwf Hrun) as [[_ [->|[e ->]]]|[-> _]]; eauto.
Qed.

(** ** More on the explosion *)

Lemma sum_list_pointwise_le {A} (f g : A -> nat) (l l' : list A) :
  length l = length l' ->
  (forall i a a', l !! i = Some a -> l' !! i = Some a' -> (f a <= g a')%nat) ->
  (sum_list (f <$> l) <= sum_list (g <$> l'))%nat.
Proof.
  revert l'. induction l as [|a l IH]; intros [|a' l'] Hlen H; try discriminate; [done|].
  cbn. pose proof (H 0%nat a a' eq_refl eq_refl) as H0.
  assert (sum_list (f <$> l) <= sum_list (g <$> l'))%nat as Hrest.
  { apply IH; [by injection Hlen|]. intros i. apply (H (S i)). }
  clear IH H. lia.
Qed.

Lemma sum_list_pointwise_lt {A} (f g : A -> nat) (l l' : list A) i a a' :
  length l = length l' ->
  (forall i a a', l !! i = Some a -> l' !! i = Some a' -> (f a <= g a')%nat) ->
  l !! i = Some a -> l' !! i = Some a' -> (f a < g a')%nat ->
  (sum_list (f <$> l) < sum_list (g <$> l'))%nat.
Proof.
  revert l' i. induction l as [|x l IH]; intros [|x' l'] i Hlen H Hi Hi' Hlt;
    try discriminate.
  destruct i as [|i]; cbn in Hi, Hi'.
  - injection Hi as ->. injection Hi' as ->. cbn.
    assert (sum_list (f <$> l) <= sum_list (g <$> l'))%nat as Hrest.
    { apply sum_list_pointwise_le; [by injection Hlen|]. intros j. apply (H (S j)). }
    clear IH H. lia.
  - cbn. pose proof (H 0%nat x x' eq_refl eq_refl) as H0.
    assert (sum_list (f <$> l) < sum_list (g <$> l'))%nat as Hrest.
    { apply (IH l' i); [by injection Hlen| |done..]. intros j. apply (H (S j)). }
    clear IH H. lia.
Qed.

Lemma count_pointwise_le x b b' :
  wf_board b -> wf_board b' ->
  (forall i j c c', cell_at b i j = Some c -> cell_at b' i j = Some c' ->
     (holds x c' <= holds x c)%nat) ->
  (count_on_board x b' <= count_on_board x b)%nat.
Proof.
  intros Hwf Hwf' H. unfold count_on_board.
  apply sum_list_pointwise_le; [destruct Hwf, Hwf'; congruence|].
  intros i row' row Hrow' Hrow. unfold count_in_row.
  apply sum_list_pointwise_le.
  - by rewrite (wf_board_row b i row), (wf_board_row b' i row').
  - intros j c' c Hc' Hc. apply (H i j); unfold cell_at; by rewrite ?Hrow, ?Hrow'.
Qed.

Lemma count_pointwise_lt x b b' i j c c' :
  wf_board b -> wf_board b' ->
  (forall i j c c', cell_at b i j = Some c -> cell_at b' i j = Some c' ->
     (holds x c' <= holds x c)%nat) ->
  cell_at b i j = Some c -> cell_at b' i j = Some c' -> (holds x c' < holds x c)%nat ->
  (count_on_board x b' < count_on_board x b)%nat.
Proof.
  intros Hwf Hwf' H Hc Hc' Hlt. unfold count_on_board.
  unfold cell_at in Hc, Hc'.
  destruct (b !! i) as [row|] eqn:Hrow; [|discriminate].
  destruct (b' !! i) as [row'|] eqn:Hrow'; [|discriminate].
  apply (sum_list_pointwise_lt _ _ b' b i row' row);
    [destruct Hwf, Hwf'; congruence | | done | done |].
  - intros i2 r2' r2 Hr2' Hr2. unfold count_in_row.
    apply sum_list_pointwise_le.
    + by rewrite (wf_board_row b i2 r2), (wf_board_row b' i2 r2').
    + intros j2 c2' c2 Hc2' Hc2. apply (H i2 j2); unfold cell_at; by rewrite ?Hr2, ?Hr2'.
  - unfold count_in_row.
    apply (sum_list_pointwise_lt _ _ row' row j c' c); try done.
    + by rewrite (wf_board_row b i row), (wf_board_row b' i row').
    + intros j2 c2' c2 Hc2' Hc2. apply (H i j2); unfold cell_at; by rewrite ?Hrow, ?Hrow'.
Qed.

Lemma exploded_cell mid cells after i j c :
  wf_board (_board mid) -> exploded mid cells after ->
  cell_at (_board mid) i j = Some c ->
  cell_at (_board after) i j =
    Some (if bool_decide ((Z.of_nat i, Z.of_nat j) ∈ cells) then blast c else c).
Proof.
  intros Hwf (Hwf' & _ & Hb & _) Hc.
  destruct (cell_at_lt _ i j c Hwf Hc) as [Hi Hj].
  pose proof (cell_at_getitem2 _ i j c Hwf Hc) as Hget.
  specialize (Hb (Z.of_nat i) (Z.of_nat j) ltac:(lia) ltac:(lia)).
  assert (content (_board mid) (Z.of_nat i, Z.of_nat j) = c) as Hcont
    by (unfold content; simpl; by rewrite Hget).
  rewrite Hcont in Hb.
  apply getitem2_Ret in Hb as (i' & j' & Hi' & Hj' & Hcell); [|done].
  rewrite norm_index_of_nat in Hi', Hj' by done. congruence.
Qed.

Lemma pawn_is_not_king x : is_pawn x = true -> is_king x = false.
Proof. unfold is_pawn, is_king. intros ->%Ascii.eqb_eq. done. Qed.

Lemma blast_cases x : (blast x = " "%char /\ is_pawn x = false) \/ (blast x = x /\ is_pawn x = true).
Proof. unfold blast. destruct (is_pawn x); simpl; auto. Qed.

Lemma holds_blast_le x c : x <> " "%char -> (holds x (blast c) <= holds x c)%nat.
Proof.
  intros Hx. destruct (blast_cases c) as [[-> _]|[-> _]]; [|done].
  unfold holds at 1. destruct (Ascii.eqb " " x) eqn:E; [|lia].
  apply Ascii.eqb_eq in E. congruence.
Qed.

Lemma holds_blast_pawn x c : is_pawn x = true -> holds x (blast c) = holds x c.
Proof.
  intros Hx. destruct (blast_cases c) as [[-> Hc]|[-> _]]; [|done].
  unfold holds. destruct (Ascii.eqb c x) eqn:E.
  - apply Ascii.eqb_eq in E. congruence.
  - destruct (Ascii.eqb " " x) eqn:E'; [|done].
    apply Ascii.eqb_eq in E'. subst x. discriminate Hx.
Qed.

(** Pawn immunity, counted: [_explosion] leaves the number of pawns of
    each color on the board unchanged, and it never adds a piece, the
    number of squares holding any given letter can only go down. *)
Theorem explosion_spares_pawns (self : ChessVar) (row col : Z) :
  wf_board (_board self) -> 0 <= row < 8 -> 0 <= col < 8 ->
  exists self',
    _explosion row col self = (Ret tt, self') /\
    (forall x, is_pawn x = true ->
       count_on_board x (_board self') = count_on_board x (_board self)) /\
    (forall x, x <> " "%char ->
       (count_on_board x (_board self') <= count_on_board x (_board self))%nat).
Proof.
  intros Hwf Hrow Hcol.
  destruct (explosion_exploded self row col Hwf Hrow Hcol) as (self' & Hrun & Hexp).
  exists self'. split; [done|].
  assert (wf_board (_board self')) as Hwf' by by destruct Hexp.
  split.
  - intros x Hx. symmetry. apply count_pointwise; [done..|].
    intros i j c c' Hc Hc'.
    rewrite (exploded_cell self _ self' i j c Hwf Hexp Hc) in Hc'. injection Hc' as <-.
    case_bool_decide; [|done]. by rewrite holds_blast_pawn.
  - intros x Hx. apply count_pointwise_le; [done..|].
    intros i j c c' Hc Hc'.
    rewrite (exploded_cell self _ self' i j c Hwf Hexp Hc) in Hc'. injection Hc' as <-.
    case_bool_decide; [|done]. by apply holds_blast_le.
Qed.

Lemma board_ext b b' :
  wf_board b -> wf_board b' ->
  (forall i j, cell_at b i j = cell_at b' i j) -> b = b'.
Proof.
  intros Hwf Hwf' H. apply list_eq. intros i.
  destruct (b !! i) as [row|] eqn:Hrow.
  - assert (is_Some (b' !! i)) as [row' Hrow'].
    { apply lookup_lt_is_Some_2. destruct Hwf as [Hl _], Hwf' as [-> _]. rewrite <- Hl.
      apply lookup_lt_is_Some_1. eauto. }
    rewrite Hrow'. f_equal. apply list_eq. intros j.
    specialize (H i j). unfold cell_at in H. by rewrite Hrow, Hrow' in H.
  - symmetry. apply lookup_ge_None. apply lookup_ge_None in Hrow.
    destruct Hwf as [Hl _], Hwf' as [Hl' _]. lia.
Qed.

(** [_explosion] is idempotent: a second explosion on the same square
    changes nothing, neither the board nor the turn nor the outcome. *)
Theorem explosion_idempotent (self : ChessVar) (row col : Z) :
  wf_board (_board self) -> 0 <= row < 8 -> 0 <= col < 8 ->
  exists self',
    _explosion row col self = (Ret tt, self') /\
    _explosion row col self' = (Ret tt, self').
Proof.
  intros Hwf Hrow Hcol.
  destruct (explosion_exploded self row col Hwf Hrow Hcol) as (self1 & Hrun1 & Hexp1).
  exists self1. split; [done|].
  assert (wf_board (_board self1)) as Hwf1 by by destruct Hexp1.
  destruct (explosion_exploded self1 row col Hwf1 Hrow Hcol) as (self2 & Hrun2 & Hexp2).
  rewrite Hrun2. f_equal.
  assert (wf_board (_board self2)) as Hwf2 by by destruct Hexp2.
  assert (_board self2 = _board self1) as Hboard.
  { apply board_ext; [done..|]. intros i j.
    destruct (cell_at (_board self1) i j) as [c1|] eqn:Hc1.
    - rewrite (exploded_cell self1 _ self2 i j c1 Hwf1 Hexp2 Hc1).
      case_bool_decide as Hin; [|done]. f_equal.
      destruct (cell_at_lt _ i j c1 Hwf1 Hc1) as [Hi Hj].
      destruct (cell_at_is_Some (_board self) i j Hwf Hi Hj) as [c0 Hc0].
      rewrite (exploded_cell self _ self1 i j c0 Hwf Hexp1 Hc0) in Hc1.
      rewrite bool_decide_eq_true_2 in Hc1 by done. injection Hc1 as <-.
      destruct (blast_cases c0) as [[-> _]|[-> Hp]]; [reflexivity|].
      unfold blast. by rewrite Hp.
    - destruct (cell_at (_board self2) i j) as [c2|] eqn:Hc2; [|done].
      destruct (cell_at_lt _ i j c2 Hwf2 Hc2) as [Hi Hj].
      destruct (cell_at_is_Some (_board self1) i j Hwf1 Hi Hj) as [c1 Hc1']. congruence. }
  assert (_game_state self2 = _game_state self1) as Hstate.
  { destruct Hexp2 as (_ & _ & _ & ->). apply foldl_verdict_no_king.
    intros y ([i j] & -> & Hin)%list_elem_of_fmap.
    pose proof Hin as Hrad%elem_of_blast_zone. destruct Hrad as [Hi Hj].
    destruct Hexp1 as (_ & _ & Hb & _). unfold content. simpl.
    rewrite Hb by lia. rewrite bool_decide_eq_true_2 by done.
    destruct (blast_cases (content (_board self) (i, j))) as [[-> _]|[-> Hp]];
      [reflexivity | by apply pawn_is_not_king]. }
  assert (_current_turn self2 = _current_turn self1) as Hturn by by destruct Hexp2 as (_ & -> & _).
  destruct self1, self2; simpl in *. congruence.
Qed.

(** ** What a move does to the pieces on the board *)

Lemma count_relocate_gen x self piece captured i0 j0 i1 j1 :
  cell_at (_board self) i0 j0 = Some piece ->
  cell_at (_board self) i1 j1 = Some captured ->
  x <> " "%char ->
  (count_on_board x (_board (relocate self piece i0 j0 i1 j1)) + holds x captured
   = count_on_board x (_board self))%nat.
Proof.
  intros Hp Hc Hx. unfold relocate. simpl.
  assert (cell_at (put (_board self) i1 j1 piece) i0 j0 = Some piece) as Hmid.
  { destruct (decide ((i1, j1) = (i0, j0))) as [[= -> ->]|Hne].
    - by apply (cell_at_put_eq _ _ _ _ captured).
    - by rewrite cell_at_put_ne. }
  pose proof (count_put x (_board self) i1 j1 captured piece Hc) as H1.
  pose proof (count_put x (put (_board self) i1 j1 piece) i0 j0 piece " " Hmid) as H2.
  assert (holds x " " = 0%nat) as Hb.
  { unfold holds. destruct (Ascii.eqb " " x) eqn:E; [|done].
    apply Ascii.eqb_eq in E. congruence. }
  lia.
Qed.

Lemma exploded_count_le x mid cells after :
  wf_board (_board mid) -> exploded mid cells after -> x <> " "%char ->
  (count_on_board x (_board after) <= count_on_board x (_board mid))%nat.
Proof.
  intros Hwf Hexp Hx.
  apply count_pointwise_le; [done | by destruct Hexp |].
  intros i j c c' Hc Hc'.
  rewrite (exploded_cell mid _ after i j c Hwf Hexp Hc) in Hc'. injection Hc' as <-.
  case_bool_decide; [|done]. by apply holds_blast_le.
Qed.

Lemma exploded_count_lt x mid cells after i j :
  wf_board (_board mid) -> exploded mid cells after ->
  is_king x = true ->
  (Z.of_nat i, Z.of_nat j) ∈ cells -> cell_at (_board mid) i j = Some x ->
  (count_on_board x (_board after) < count_on_board x (_board mid))%nat.
Proof.
  intros Hwf Hexp Hx Hin Hcell.
  assert (x <> " "%char) as Hnb by (intros ->; discriminate Hx).
  apply (count_pointwise_lt x _ _ i j x (blast x)); [done | by destruct Hexp | | done | |].
  - intros i2 j2 c c' Hc Hc'.
    rewrite (exploded_cell mid _ after i2 j2 c Hwf Hexp Hc) in Hc'. injection Hc' as <-.
    case_bool_decide; [|done]. by apply holds_blast_le.
  - rewrite (exploded_cell mid _ after i j x Hwf Hexp Hcell).
    by rewrite bool_decide_eq_true_2.
  - unfold blast. rewrite (king_is_not_pawn x Hx). simpl.
    unfold holds. rewrite Ascii.eqb_refl.
    destruct (Ascii.eqb " " x) eqn:E; [|lia]. apply Ascii.eqb_eq in E. congruence.
Qed.

Lemma foldl_verdict_changed o xs :
  foldl king_verdict o xs = o \/ exists y, y ∈ xs /\ is_king y = true.
Proof.
  revert o. induction xs as [|x xs IH]; intros o; [by left|]. simpl.
  destruct (is_king x) eqn:Hx.
  - right. exists x. split; [by left | done].
  - rewrite king_verdict_other by done.
    destruct (IH o) as [?|(y & Hy & Hk)]; [by left|].
    right. exists y. split; [by right | done].
Qed.

Lemma centre_in_zone row col :
  0 <= row < 8 -> 0 <= col < 8 -> (row, col) ∈ blast_zone row col.
Proof. intros Hr Hc. apply elem_of_blast_zone. unfold in_radius. lia. Qed.

Lemma relocate_dest self piece i0 j0 i1 j1 captured :
  (i0, j0) <> (i1, j1) ->
  cell_at (_board self) i1 j1 = Some captured ->
  cell_at (_board (relocate self piece i0 j0 i1 j1)) i1 j1 = Some piece.
Proof.
  intros Hne Hc. unfold relocate. simpl. rewrite cell_at_put_ne by done.
  by apply (cell_at_put_eq _ _ _ _ captured).
Qed.

Lemma relocate_origin self piece i0 j0 i1 j1 :
  cell_at (_board self) i0 j0 = Some piece ->
  cell_at (_board (relocate self piece i0 j0 i1 j1)) i0 j0 = Some " "%char.
Proof.
  intros Hp. unfold relocate. simpl.
  destruct (decide ((i1, j1) = (i0, j0))) as [[= -> ->]|Hne].
  - apply (cell_at_put_eq _ _ _ _ piece). by apply (cell_at_put_eq _ _ _ _ piece).
  - apply (cell_at_put_eq _ _ _ _ piece). by rewrite cell_at_put_ne.
Qed.

(** [make_move] never puts a new piece on the board: for every letter,
    the number of squares holding it after the call is at most what it
    was before; and a successful call changes the number of pawns of a
    color only by the pawn it captured on the destination square (the
    explosion spares pawns). *)
Theorem make_move_never_adds (self : ChessVar) (s n : list Z) (r : res bool)
    (self' : ChessVar) :
  wf_board (_board self) ->
  make_move s n self = (r, self') ->
  (forall x, x <> " "%char ->
     (count_on_board x (_board self') <= count_on_board x (_board self))%nat) /\
  (forall x next_row to_col captured,
     is_pawn x = true -> r = Ret true ->
     _convert_square_to_indices n = Ret (next_row, to_col) ->
     getitem2 (_board self) next_row to_col = Ret captured ->
     (count_on_board x (_board self') + holds x captured
      = count_on_board x (_board self))%nat).
Proof.
  intros Hwf Hrun.
  destruct (make_move_cases s n self r self' Hwf Hrun)
    as [[-> Hr]|[-> (sr & sc & nr & nc & piece & i0 & j0 & Hst & Es & En & Hnr & Hnc & Hi0
                       & Hj0 & Hcell & Hv & Happ & Hwf')]].
  { split; [done|]. intros x nr nc captured _ ->. destruct Hr as [?|[? ?]]; discriminate. }
  assert (Z.to_nat nr < 8 /\ Z.to_nat nc < 8)%nat as [Hi1 Hj1] by lia.
  destruct (applied_inv self piece i0 j0 _ _ self' Hwf Hi1 Hj1 Happ)
    as (captured & after & Hcap & -> & Hafter).
  rewrite finish_turn_board.
  assert (wf_board (_board (relocate self piece i0 j0 (Z.to_nat nr) (Z.to_nat nc)))) as Hwf1
    by by do 2 apply wf_board_put.
  split.
  - intros x Hx.
    pose proof (count_relocate_gen x self piece captured i0 j0 _ _ Hcell Hcap Hx) as Hrel.
    destruct Hafter as [[_ ->]|[_ Hexp]]; [lia|].
    pose proof (exploded_count_le x (with_state _ _) _ after Hwf1 Hexp Hx) as Hle.
    eapply Nat.le_trans; [exact Hle|]. rewrite <- Hrel. apply Nat.le_add_r.
  - intros x nr' nc' captured' Hx _ En' Hget.
    rewrite En in En'. injection En' as <- <-.
    assert (captured' = captured) as ->.
    { apply getitem2_Ret in Hget as (i & j & Hi & Hj & Hc); [|done].
      rewrite norm_index_nonneg in Hi, Hj by done. congruence. }
    assert (x <> " "%char) as Hnb by (intros ->; discriminate Hx).
    pose proof (count_relocate_gen x self piece captured i0 j0 _ _ Hcell Hcap Hnb) as Hrel.
    destruct Hafter as [[_ ->]|[_ Hexp]]; [done|].
    assert (count_on_board x (_board after)
            = count_on_board x (_board (relocate self piece i0 j0 (Z.to_nat nr) (Z.to_nat nc))))
      as ->; [|done].
    symmetry. apply count_pointwise; [done | by destruct Hexp |].
    intros i j c c' Hc Hc'.
    rewrite (exploded_cell (with_state _ _) _ after i j c Hwf1 Hexp Hc) in Hc'.
    injection Hc' as <-.
    case_bool_decide; [|done]. by rewrite holds_blast_pawn.
Qed.

Lemma content_cell b i j :
  wf_board b -> 0 <= i < 8 -> 0 <= j < 8 ->
  cell_at b (Z.to_nat i) (Z.to_nat j) = Some (content b (i, j)).
Proof.
  intros Hwf Hi Hj. pose proof (getitem2_content b i j Hwf Hi Hj) as H.
  apply getitem2_Ret in H as (i' & j' & Hi' & Hj' & Hc); [|done].
  rewrite norm_index_nonneg in Hi', Hj' by lia. congruence.
Qed.

(** ** The game ends only by the loss of a king *)

(** A call of [make_move] on an unfinished game after which the outcome
    is terminal has taken a king off the board: the number of kings has
    gone down. (With C9: the outcome turns terminal exactly in the calls
    that remove a king.) *)
Theorem game_ends_only_by_king_loss (self : ChessVar) (s n : list Z) (r : res bool)
    (self' : ChessVar) :
  wf_board (_board self) ->
  _game_state self = UNFINISHED ->
  make_move s n self = (r, self') ->
  _game_state self' <> UNFINISHED ->
  (count_on_board "K" (_board self') + count_on_board "k" (_board self')
   < count_on_board "K" (_board self) + count_on_board "k" (_board self))%nat.
Proof.
  intros Hwf Hst Hrun Hterm.
  destruct (make_move_cases s n self r self' Hwf Hrun)
    as [[-> _]|[-> (sr & sc & nr & nc & piece & i0 & j0 & _ & Es & En & Hnr & Hnc & Hi0
                      & Hj0 & Hcell & Hv & Happ & Hwf')]]; [done|].
  assert (Z.to_nat nr < 8 /\ Z.to_nat nc < 8)%nat as [Hi1 Hj1] by lia.
  destruct (applied_inv self piece i0 j0 _ _ self' Hwf Hi1 Hj1 Happ)
    as (captured & after & Hcap & -> & Hafter).
  rewrite finish_turn_board. rewrite finish_turn_state in Hterm.
  set (i1 := Z.to_nat nr) in *. set (j1 := Z.to_nat nc) in *.
  destruct Hafter as [[_ ->]|[Hcapt Hexp]]; [done|].
  set (mid := with_state (relocate self piece i0 j0 i1 j1)
                         (capture_verdict (_game_state self) captured piece)) in *.
  assert (wf_board (_board mid)) as Hwfm by by do 2 apply wf_board_put.
  assert (forall x, x <> " "%char ->
            (count_on_board x (_board mid) + holds x captured
             = count_on_board x (_board self))%nat) as Hrel.
  { intros x Hx. by apply (count_relocate_gen x self piece captured i0 j0 i1 j1). }
  pose proof (Hrel "K"%char ltac:(discriminate)) as HrelK.
  pose proof (Hrel "k"%char ltac:(discriminate)) as Hrelk.
  pose proof (exploded_count_le "K" mid _ after Hwfm Hexp ltac:(discriminate)) as HleK.
  pose proof (exploded_count_le "k" mid _ after Hwfm Hexp ltac:(discriminate)) as Hlek.
  assert ((i0, j0) <> (i1, j1)) as Hne
    by by apply (legal_move_leaves_origin self piece sr sc nr nc).
  assert (forall x i j, is_king x = true ->
            (Z.of_nat i, Z.of_nat j) ∈ blast_zone (Z.of_nat i1) (Z.of_nat j1) ->
            cell_at (_board mid) i j = Some x ->
            (count_on_board "K" (_board after) + count_on_board "k" (_board after)
             < count_on_board "K" (_board mid) + count_on_board "k" (_board mid))%nat)
    as Hstrict.
  { intros x i j Hx Hin Hc.
    pose proof (exploded_count_lt x mid _ after i j Hwfm Hexp Hx Hin Hc) as Hlt.
    apply is_king_iff in Hx as [-> | ->]; lia. }
  destruct (is_king captured) eqn:Hk.
  { apply is_king_iff in Hk as [-> | ->].
    - change (holds "K" "k") with 0%nat in HrelK. change (holds "k" "k") with 1%nat in Hrelk. lia.
    - change (holds "K" "K") with 1%nat in HrelK. change (holds "k" "K") with 0%nat in Hrelk. lia. }
  assert (holds "K" captured = 0%nat) as HK by by apply holds_not_king.
  assert (holds "k" captured = 0%nat) as Hk' by by apply holds_not_king.
  assert (count_on_board "K" (_board after) + count_on_board "k" (_board after)
          < count_on_board "K" (_board mid) + count_on_board "k" (_board mid))%nat; [|lia].
  destruct (is_king piece) eqn:Hpk.
  { apply (Hstrict piece i1 j1 Hpk).
    - apply centre_in_zone; unfold i1, j1; lia.
    - by apply (relocate_dest self piece i0 j0 i1 j1 captured). }
  destruct Hexp as (_ & _ & Hb & Ho).
  destruct (foldl_verdict_changed (_game_state mid)
              (content (_board mid) <$> blast_zone (Z.of_nat i1) (Z.of_nat j1)))
    as [Hsame|(y & ([i j] & -> & Hin)%list_elem_of_fmap & Hy)].
  { exfalso. apply Hterm. rewrite Ho, Hsame. unfold mid, capture_verdict. simpl.
    by rewrite Hk, Hpk. }
  pose proof Hin as [Hi Hj]%elem_of_blast_zone.
  apply (Hstrict (content (_board mid) (i, j)) (Z.to_nat i) (Z.to_nat j) Hy).
  - rewrite !Z2Nat.id by lia. done.
  - apply content_cell; [done | lia | lia].
Qed.

(** ** The letters on the board *)

Lemma cell_at_put_cases b i j v i' j' c :
  cell_at (put b i j v) i' j' = Some c -> c = v \/ cell_at b i' j' = Some c.
Proof.
  destruct (decide ((i, j) = (i', j'))) as [[= <- <-]|Hne].
  - destruct (cell_at b i j) as [x|] eqn:Hx.
    + rewrite (cell_at_put_eq b i j v x Hx). intros [= <-]. by left.
    + unfold cell_at, put in *. rewrite list_lookup_alter_eq.
      destruct (b !! i) as [row|]; simpl; [|discriminate].
      intros H. apply lookup_lt_Some in H. rewrite length_insert in H.
      apply lookup_ge_None in Hx. lia.
  - rewrite cell_at_put_ne by done. auto.
Qed.

(** In every game reached from the initial position the board is eight
    rows of eight squares and each square holds one of the thirteen
    letters of the initial board: [make_move] only copies letters that
    are on the board and writes blanks. *)
Theorem board_letters_invariant (self : ChessVar) :
  reachable self ->
  wf_board (_board self) /\
  forall i j c, cell_at (_board self) i j = Some c -> piece_letter c = true.
Proof.
  induction 1 as [|self s n Hreach [Hwf Hletters]].
  - split; [apply wf_new_game|]. intros i j c Hc.
    destruct (cell_at_lt _ i j c wf_new_game Hc) as [Hi Hj].
    do 8 (destruct i as [|i]; [do 8 (destruct j as [|j]; [by injection Hc as <-|]); lia|]).
    lia.
  - destruct (make_move s n self) as [r self'] eqn:Hrun. simpl.
    destruct (make_move_cases s n self r self' Hwf Hrun)
      as [[-> _]|[-> (sr & sc & nr & nc & piece & i0 & j0 & _ & _ & _ & Hnr & Hnc & _ & _
                        & Hcell & _ & Happ & Hwf')]]; [done|].
    split; [done|].
    assert (Z.to_nat nr < 8 /\ Z.to_nat nc < 8)%nat as [Hi1 Hj1] by lia.
    destruct (applied_inv self piece i0 j0 _ _ self' Hwf Hi1 Hj1 Happ)
      as (captured & after & Hcap & -> & Hafter).
    rewrite finish_turn_board.
    assert (forall i j c,
              cell_at (_board (relocate self piece i0 j0 (Z.to_nat nr) (Z.to_nat nc))) i j
              = Some c -> piece_letter c = true) as Hrel.
    { intros i j c [->|[->|Hc]%cell_at_put_cases]%cell_at_put_cases; eauto. }
    destruct Hafter as [[_ ->]|[_ Hexp]]; [done|].
    intros i j c Hc.
    assert (wf_board (_board (relocate self piece i0 j0 (Z.to_nat nr) (Z.to_nat nc)))) as Hwf1
      by by do 2 apply wf_board_put.
    assert (wf_board (_board after)) as Hwfa by by destruct Hexp.
    destruct (cell_at_lt (_board after) i j c Hwfa Hc) as [Hi Hj].
    destruct (cell_at_is_Some _ i j Hwf1 Hi Hj) as [c0 Hc0].
    rewrite (exploded_cell (with_state _ _) _ after i j c0 Hwf1 Hexp Hc0) in Hc.
    injection Hc as <-. case_bool_decide; [|by eapply Hrel].
    destruct (blast_cases c0) as [[-> _]|[-> _]]; [reflexivity | by eapply Hrel].
Qed.

(** ** What a capture leaves behind *)

(** After a successfully applied capture the origin square is empty and
    the destination square is empty too, unless the capturing piece is a
    pawn, which stays there: the captured piece is gone and so is every
    capturing piece other than a pawn. *)
Theorem capture_leaves (self : ChessVar) (s n : list Z) (self' : ChessVar)
    (next_row to_col : Z) (captured : ascii) :
  wf_board (_board self) ->
  make_move s n self = (Ret true, self') ->
  _convert_square_to_indices n = Ret (next_row, to_col) ->
  getitem2 (_board self) next_row to_col = Ret captured ->
  captured <> " "%char ->
  exists start_row start_col piece,
    _convert_square_to_indices s = Ret (start_row, start_col) /\
    getitem2 (_board self) start_row start_col = Ret piece /\
    getitem2 (_board self') start_row start_col = Ret " "%char /\
    getitem2 (_board self') next_row to_col = Ret (if is_pawn piece then piece else " "%char).
Proof.
  intros Hwf Hrun Hn Hget Hnb.
  destruct (make_move_cases s n self (Ret true) self' Hwf Hrun)
    as [[_ [?|[? ?]]]|[_ (sr & sc & nr & nc & piece & i0 & j0 & Hst & Es & En & Hnr & Hnc
                          & Hi0 & Hj0 & Hcell & Hv & Happ & Hwf')]]; try discriminate.
  rewrite Hn in En. injection En as <- <-.
  assert (Z.to_nat next_row < 8 /\ Z.to_nat to_col < 8)%nat as [Hi1 Hj1] by lia.
  assert ((i0, j0) <> (Z.to_nat next_row, Z.to_nat to_col)) as Hne
    by by apply (legal_move_leaves_origin self piece sr sc next_row to_col).
  destruct (applied_inv self piece i0 j0 _ _ self' Hwf Hi1 Hj1 Happ)
    as (captured' & after & Hcap & -> & Hafter).
  assert (captured' = captured) as ->.
  { apply getitem2_Ret in Hget as (i & j & Hi & Hj & Hc); [|done].
    rewrite norm_index_nonneg in Hi, Hj by done. congruence. }
  destruct Hafter as [[? _]|[_ Hexp]]; [done|].
  exists sr, sc, piece. split; [done|].
  assert (wf_board (_board (relocate self piece i0 j0 (Z.to_nat next_row) (Z.to_nat to_col))))
    as Hwf1 by by do 2 apply wf_board_put.
  rewrite finish_turn_board in *.
  split; [apply getitem2_Ret; eauto|].
  split.
  - apply getitem2_Ret; [done|]. exists i0, j0. do 2 (split; [done|]).
    rewrite (exploded_cell (with_state _ _) _ after i0 j0 " " Hwf1 Hexp)
      by by apply relocate_origin.
    by case_bool_decide.
  - apply getitem2_Ret; [done|]. exists (Z.to_nat next_row), (Z.to_nat to_col).
    rewrite !norm_index_nonneg by done. do 2 (split; [done|]).
    rewrite (exploded_cell (with_state _ _) _ after _ _ piece Hwf1 Hexp)
      by by apply (relocate_dest self piece i0 j0 _ _ captured).
    rewrite bool_decide_eq_true_2 by (rewrite !Z2Nat.id by lia; by apply centre_in_zone).
    unfold blast. by destruct (is_pawn piece).
Qed.

(** ** The printed board *)

Lemma list_of_length_8 {A} (l : list A) :
  length l = 8%nat -> exists a0 a1 a2 a3 a4 a5 a6 a7, l = [a0; a1; a2; a3; a4; a5; a6; a7].
Proof.
  intros H. do 9 (destruct l as [|? l]; try discriminate H). eauto 10.
Qed.

Lemma join_row_8 (row : list ascii) (out : string) :
  length row = 8%nat ->
  String.length (join " " row ++ String "010" out) = (16 + String.length out)%nat /\
  (forall j c, row !! j = Some c ->
     String.get (2 * j) (join " " row ++ String "010" out) = Some c) /\
  (forall k, String.get (16 + k) (join " " row ++ String "010" out) = String.get k out).
Proof.
  intros (a0 & a1 & a2 & a3 & a4 & a5 & a6 & a7 & ->)%list_of_length_8.
  split; [reflexivity|]. split; [|reflexivity].
  intros j c Hc.
  do 8 (destruct j as [|j]; [by injection Hc as <-|]). discriminate Hc.
Qed.

Lemma print_board_text (self : ChessVar) :
  wf_board (_board self) ->
  String.length (print_board self) = 129%nat /\
  forall i j c, cell_at (_board self) i j = Some c ->
    String.get (16 * i + 2 * j) (print_board self) = Some c.
Proof.
  unfold print_board. destruct self as [b t o]. simpl. clear t o.
  intros [Hlen Hrows].
  assert (forall rows : board,
            Forall (fun row => length row = 8%nat) rows ->
            String.length (foldr (fun row out => join " " row ++ String "010" out)%string
                                 (String "010" EmptyString) rows)
            = (16 * length rows + 1)%nat /\
            forall i j c, cell_at rows i j = Some c ->
              String.get (16 * i + 2 * j)
                (foldr (fun row out => join " " row ++ String "010" out)%string
                       (String "010" EmptyString) rows) = Some c) as Hgen.
  { induction 1 as [|row rows Hrow Hall [IHlen IHget]]; [split; [reflexivity|]|].
    - intros i j c Hc. unfold cell_at in Hc. by rewrite lookup_nil in Hc.
    - cbn [foldr].
      destruct (join_row_8 row
                  (foldr (fun row out => join " " row ++ String "010" out)%string
                         (String "010" EmptyString) rows) Hrow) as (Hl & Hcells & Hshift).
      split; [rewrite Hl, IHlen; cbn [length]; lia|].
      intros [|i] j c Hc.
      + unfold cell_at in Hc. cbn in Hc.
        replace (16 * 0 + 2 * j)%nat with (2 * j)%nat by lia. by apply Hcells.
      + replace (16 * S i + 2 * j)%nat with (16 + (16 * i + 2 * j))%nat by lia.
        rewrite Hshift. by apply IHget. }
  destruct (Hgen b Hrows) as [Hl Hg]. split; [rewrite Hl, Hlen; reflexivity | exact Hg].
Qed.

(** The text [print_board] writes for a board of eight rows of eight
    squares has 129 characters, sixteen per row (eight squares, seven
    separating blanks and a line end) and a final line end; the square
    in row [i], column [j] is the character at offset [16 i + 2 j]. *)
Theorem print_board_layout (self : ChessVar) :
  wf_board (_board self) ->
  String.length (print_board self) = 129%nat /\
  forall i j c, cell_at (_board self) i j = Some c ->
    String.get (16 * i + 2 * j) (print_board self) = Some c.
Proof. apply print_board_text. Qed.

(** The printed text determines the board: two boards of eight rows of
    eight squares that [print_board] prints alike are the same board. *)
Theorem print_board_injective (self self' : ChessVar) :
  wf_board (_board self) -> wf_board (_board self') ->
  print_board self = print_board self' ->
  _board self = _board self'.
Proof.
  intros Hwf Hwf' Heq. apply board_ext; [done..|]. intros i j.
  destruct (print_board_text self Hwf) as [_ Hget].
  destruct (print_board_text self' Hwf') as [_ Hget'].
  destruct (cell_at (_board self) i j) as [c|] eqn:Hc.
  - destruct (cell_at_lt _ i j c Hwf Hc) as [Hi Hj].
    destruct (cell_at_is_Some (_board self') i j Hwf' Hi Hj) as [c' Hc'].
    apply Hget in Hc. pose proof (Hget' i j c' Hc') as Hc2.
    rewrite Heq in Hc. congruence.
  - destruct (cell_at (_board self') i j) as [c'|] eqn:Hc'; [|done].
    destruct (cell_at_lt _ i j c' Hwf' Hc') as [Hi Hj].
    destruct (cell_at_is_Some (_board self) i j Hwf Hi Hj) as [c Hc2]. congruence.
Qed.

(** ** Whose piece moves *)

(** Only the side to move moves: when [make_move] applies a move, the
    origin held a piece (not a blank) and its case is that of the side
    whose turn it was, upper case for White and lower case for Black. *)
Theorem only_own_pieces_move (self : ChessVar) (s n : list Z) (self' : ChessVar) :
  make_move s n self = (Ret true, self') ->
  exists start_row start_col piece,
    _convert_square_to_indices s = Ret (start_row, start_col) /\
    getitem2 (_board self) start_row start_col = Ret piece /\
    piece <> " "%char /\
    ((_current_turn self = W /\ isupper piece = true) \/
     (_current_turn self = B /\ islower piece = true)).
Proof.
  intros Hrun.
  destruct (make_move_inv s n self (Ret true) self' Hrun)
    as [[_ [?|[? ?]]]|(sr & sc & nr & nc & piece & _ & Es & _ & _ & _ & Hp & Hl & Hu & Hv & _)];
    try discriminate.
  exists sr, sc, piece. do 2 (split; [done|]).
  assert (piece <> " "%char) as Hnb.
  { intros ->. by rewrite is_valid_move_blank in Hv. }
  split; [done|].
  assert (exists letter, lower piece = letter /\ islower letter = true) as (letter & Hlow & Hcase).
  { apply is_valid_move_true_inv in Hv. cbv zeta in Hv.
    destruct Hv as [(H & _)|[(H & _)|[(H & _)|[(H & _)|[(H & _)|[(H & _)|[(H & _)|[(H & _)
                   |(H & _)]]]]]]]]; rewrite H; eauto. }
  destruct (isupper piece) eqn:Eu; [left; auto|right].
  unfold lower in Hlow. rewrite Eu in Hlow. subst letter. auto.
Qed.

End Game.

(** * The statements at work *)

(** The theorems applied to calls on concrete games.  The digits [int]
    reads beyond ASCII are taken to be the Arabic-Indic ones; the string
    [[101; 1641]] is ['e'] followed by U+0669, ARABIC-INDIC DIGIT NINE. *)

Lemma arabic_indic_spec c d : arabic_indic c = Some d -> 128 <= c /\ 0 <= d <= 9.
Proof.
  unfold arabic_indic. destruct ((1632 <=? c) && (c <=? 1641)) eqn:E; [|discriminate].
  intros [= <-]. apply andb_true_iff in E. lia.
Qed.

Lemma malformed_input_witness :
  make_move arabic_indic (str "e2") (str "e9") new_game = (Ret false, new_game) /\
  make_move arabic_indic (str "e2") [101; 1641] new_game = (Ret false, new_game) /\
  make_move arabic_indic (str "e2") (str "4e") new_game = (Raise ValueError, new_game).
Proof.
  split; [|split].
  - apply (proj1 (malformed_input arabic_indic new_game (str "e2") (str "e9"))
             eq_refl (-1) 4 eq_refl).
    unfold on_board. lia.
  - apply (proj1 (malformed_input arabic_indic new_game (str "e2") [101; 1641])
             eq_refl (-1) 4 eq_refl).
    unfold on_board. lia.
  - apply (proj2 (malformed_input arabic_indic new_game (str "e2") (str "4e")));
      [reflexivity | right; reflexivity].
Defined.

(** C3 as stated fails: the one-character string ["e"] is malformed
    notation, and [make_move] raises [ValueError] on it instead of
    returning [False]; and ['e'] followed by U+0664, ARABIC-INDIC DIGIT
    FOUR, is no file letter and rank digit ['1'] to ['8'], yet the move
    to it is carried out. *)
Lemma malformed_input_raises :
  well_formed_square (str "e") = false /\
  make_move arabic_indic (str "e") (str "e4") new_game = (Raise ValueError, new_game) /\
  fst (make_move arabic_indic (str "e") (str "e4") new_game) <> Ret false /\
  well_formed_square [101; 1636] = false /\
  fst (make_move arabic_indic (str "e2") [101; 1636] new_game) = Ret true.
Proof.
  split; [reflexivity|]. split; [reflexivity|]. split; [vm_compute; discriminate|].
  split; reflexivity.
Qed.

Lemma legality_and_turn_witness :
  _is_valid_move new_game "P" 6 4 4 4 = Ret (Some (pawn_rule init_board "P" 6 4 4 4)) /\
  _is_valid_move {| _board := init_board; _current_turn := W; _game_state := UNFINISHED |}
                 "N" 7 1 5 2
  = _is_valid_move {| _board := init_board; _current_turn := B; _game_state := UNFINISHED |}
                   "N" 7 1 5 2.
Proof.
  split.
  - apply (proj1 (proj2 (legality_and_turn arabic_indic)) init_board UNFINISHED "P"%char 6 4 4 4);
      [apply wf_new_game | reflexivity | lia..].
  - apply (proj1 (legality_and_turn arabic_indic) init_board UNFINISHED "N"%char 7 1 5 2).
    reflexivity.
Defined.

(** C4 as stated fails: on one and the same board the white pawn's step
    e2-e3 is judged legal when it is White's turn and illegal when it is
    Black's, and with Black's turn a white pawn may step backwards. *)
Lemma pawn_verdict_depends_on_turn :
  _is_valid_move {| _board := init_board; _current_turn := W; _game_state := UNFINISHED |}
                 "P" 6 4 5 4 = Ret (Some true) /\
  _is_valid_move {| _board := init_board; _current_turn := B; _game_state := UNFINISHED |}
                 "P" 6 4 5 4 = Ret (Some false) /\
  getitem2 (_board (snd (make_move arabic_indic (str "e2") (str "e4") new_game))) 4 4
  = Ret "P"%char /\
  _is_valid_move (snd (make_move arabic_indic (str "e2") (str "e4") new_game)) "P" 4 4 5 4
  = Ret (Some true).
Proof. repeat split; reflexivity. Qed.

Lemma terminal_freeze_witness :
  _game_state (snd (make_move arabic_indic (str "b1") (str "d2") new_game)) <> UNFINISHED /\
  make_move arabic_indic (str "e7") (str "e5")
            (snd (make_move arabic_indic (str "b1") (str "d2") new_game))
  = (Ret false, snd (make_move arabic_indic (str "b1") (str "d2") new_game)).
Proof.
  assert (_game_state (snd (make_move arabic_indic (str "b1") (str "d2") new_game))
          <> UNFINISHED) as H
    by (vm_compute; discriminate).
  split; [exact H|].
  exact (proj1 (terminal_freeze arabic_indic
                  (snd (make_move arabic_indic (str "b1") (str "d2") new_game)) H)
               (str "e7") (str "e5")).
Defined.

Lemma explosion_radius_witness :
  exists self',
    _explosion 7 4 new_game = (Ret tt, self') /\
    getitem2 (_board self') 7 3 = Ret " "%char /\
    getitem2 (_board self') 6 3 = Ret "P"%char /\
    getitem2 (_board self') 7 1 = Ret "N"%char.
Proof.
  destruct (explosion_radius new_game 7 4 wf_new_game) as (self' & Hrun & _ & _ & Hb & _);
    [lia | lia |].
  exists self'. split; [exact Hrun|]. split; [|split].
  - apply (proj1 (Hb 7 3 "Q"%char ltac:(lia) ltac:(lia) eq_refl));
      [unfold in_radius; lia | reflexivity].
  - apply (proj1 (proj2 (Hb 6 3 "P"%char ltac:(lia) ltac:(lia) eq_refl)));
      [unfold in_radius; lia | reflexivity].
  - apply (proj2 (proj2 (Hb 7 1 "N"%char ltac:(lia) ltac:(lia) eq_refl))).
    unfold in_radius. lia.
Defined.

Lemma make_move_atomic_witness :
  snd (make_move arabic_indic (str "e2") (str "e5") new_game) = new_game /\
  snd (make_move arabic_indic [101; 1634] (str "e5") new_game) = new_game /\
  snd (make_move arabic_indic (str "e2") (str "4e") new_game) = new_game.
Proof.
  assert (forall s, s = str "e2" \/ s = [101; 1634] ->
            forall start_row start_col,
              _convert_square_to_indices arabic_indic s = Ret (start_row, start_col) ->
              on_board start_row start_col) as Hon.
  { intros s [->| ->] start_row start_col H; vm_compute in H;
      injection H as <- <-; unfold on_board; lia. }
  split; [|split].
  - destruct (make_move_atomic arabic_indic new_game (str "e2") (str "e5") (Ret false)
                (snd (make_move arabic_indic (str "e2") (str "e5") new_game))
                wf_new_game (Hon _ (or_introl eq_refl))) as [[H _]|[_ H]];
      [vm_compute; reflexivity | discriminate H | exact H].
  - destruct (make_move_atomic arabic_indic new_game [101; 1634] (str "e5") (Ret false)
                (snd (make_move arabic_indic [101; 1634] (str "e5") new_game))
                wf_new_game (Hon _ (or_intror eq_refl))) as [[H _]|[_ H]];
      [vm_compute; reflexivity | discriminate H | exact H].
  - destruct (make_move_atomic arabic_indic new_game (str "e2") (str "4e") (Raise ValueError)
                (snd (make_move arabic_indic (str "e2") (str "4e") new_game))
                wf_new_game (Hon _ (or_introl eq_refl))) as [[H _]|[_ H]];
      [vm_compute; reflexivity | discriminate H | exact H].
Defined.

(** C7 as stated fails: on the unfinished initial position the call
    [make_move "e2" "4e"] returns neither [True] nor [False]; it raises. *)
Lemma make_move_neither_true_nor_false :
  _game_state new_game = UNFINISHED /\
  fst (make_move arabic_indic (str "e2") (str "4e") new_game) <> Ret true /\
  fst (make_move arabic_indic (str "e2") (str "4e") new_game) <> Ret false.
Proof. split; [reflexivity|]. split; vm_compute; discriminate. Qed.

Lemma turn_alternation_witness :
  _current_turn (snd (make_move arabic_indic (str "e2") (str "e4") new_game)) = B /\
  _current_turn (snd (make_move arabic_indic (str "b1") (str "d2") new_game)) = W /\
  _current_turn (snd (make_move arabic_indic (str "e2") (str "e5") new_game)) = W.
Proof.
  split; [|split].
  - refine (proj1 (turn_alternation arabic_indic new_game (str "e2") (str "e4") (Ret true)
                     (snd (make_move arabic_indic (str "e2") (str "e4") new_game))
                     wf_new_game _) _ _);
      vm_compute; reflexivity.
  - refine (proj1 (proj2 (turn_alternation arabic_indic new_game (str "b1") (str "d2") (Ret true)
                     (snd (make_move arabic_indic (str "b1") (str "d2") new_game))
                     wf_new_game _)) _ _);
      vm_compute; (reflexivity || discriminate).
  - refine (proj2 (proj2 (turn_alternation arabic_indic new_game (str "e2") (str "e5") (Ret false)
                     (snd (make_move arabic_indic (str "e2") (str "e5") new_game))
                     wf_new_game _)) _);
      vm_compute; (reflexivity || discriminate).
Defined.

Lemma one_king_each_witness :
  count_on_board "K" (_board (snd (make_move arabic_indic (str "e2") (str "e4") new_game)))
  = 1%nat /\
  count_on_board "k" (_board (snd (make_move arabic_indic (str "e2") (str "e4") new_game)))
  = 1%nat.
Proof.
  apply (proj1 (proj2 (one_king_each arabic_indic
                         (snd (make_move arabic_indic (str "e2") (str "e4") new_game))
                         (reach_move arabic_indic new_game (str "e2") (str "e4")
                                     (reach_new arabic_indic))))).
  reflexivity.
Defined.

Lemma quiet_move_frame_witness :
  cell_at (_board (snd (make_move arabic_indic (str "e2") (str "e4") new_game))) 6 4
  = Some " "%char /\
  cell_at (_board (snd (make_move arabic_indic (str "e2") (str "e4") new_game))) 4 4
  = Some "P"%char /\
  _game_state (snd (make_move arabic_indic (str "e2") (str "e4") new_game)) = UNFINISHED.
Proof.
  destruct (quiet_move_frame arabic_indic new_game (str "e2") (str "e4")
              (snd (make_move arabic_indic (str "e2") (str "e4") new_game)) 4 4
              wf_new_game)
    as (sr & sc & piece & i0 & j0 & Es & Hi0 & Hj0 & _ & Hcell & _ & H0 & H1 & _ & _ & Hst & _);
    [reflexivity | reflexivity | reflexivity |].
  injection Es as <- <-. injection Hi0 as <-. injection Hj0 as <-.
  injection Hcell as <-. done.
Defined.

Lemma convert_square_on_board_witness :
  (exists r c, _convert_square_to_indices arabic_indic (str "h8") = Ret (r, c) /\ on_board r c) /\
  (exists square, well_formed_square square = true /\
                  _convert_square_to_indices arabic_indic square = Ret (5, 0)) /\
  (on_board 5 0 <->
   exists column row d, [97; 1635] = [column; row] /\ ord "a" <= column <= ord "h" /\
     int arabic_indic row = Ret d /\ 1 <= d <= 8).
Proof.
  split; [|split].
  - apply (proj1 (convert_square_on_board arabic_indic arabic_indic_spec)). reflexivity.
  - apply (proj1 (proj2 (convert_square_on_board arabic_indic arabic_indic_spec))).
    unfold on_board. lia.
  - apply (proj2 (proj2 (convert_square_on_board arabic_indic arabic_indic_spec))
             [97; 1635] 5 0).
    reflexivity.
Defined.

Lemma convert_square_injective_witness :
  (exists column row row' d,
     str "a3" = [column; row] /\ [97; 1635] = [column; row'] /\
     int arabic_indic row = Ret d /\ int arabic_indic row' = Ret d) /\
  (isascii (str "a3") = true -> isascii [97; 1635] = true -> str "a3" = [97; 1635]).
Proof.
  apply (convert_square_injective arabic_indic arabic_indic_spec (str "a3") [97; 1635] 5 0);
    reflexivity.
Defined.

Lemma empty_origin_rejected_witness :
  make_move arabic_indic (str "e4") (str "e5") new_game = (Ret false, new_game) /\
  make_move arabic_indic (str "e4") (str "4e") new_game = (Raise ValueError, new_game).
Proof.
  split.
  - apply (proj1 (empty_origin_rejected arabic_indic new_game (str "e4") (str "e5") 4 4
                    eq_refl eq_refl)).
    left. reflexivity.
  - apply (proj2 (empty_origin_rejected arabic_indic new_game (str "e4") (str "4e") 4 4
                    eq_refl eq_refl));
      reflexivity.
Defined.

Lemma wrong_side_rejected_witness :
  make_move arabic_indic (str "e7") (str "e5") new_game = (Ret false, new_game) /\
  make_move arabic_indic (str "e7") (str "4e") new_game = (Raise ValueError, new_game).
Proof.
  split.
  - apply (proj1 (wrong_side_rejected arabic_indic new_game (str "e7") (str "e5") 1 4 "p"
                    eq_refl eq_refl (or_introl (conj eq_refl eq_refl)))).
    left. reflexivity.
  - apply (proj2 (wrong_side_rejected arabic_indic new_game (str "e7") (str "4e") 1 4 "p"
                    eq_refl eq_refl (or_introl (conj eq_refl eq_refl))));
      reflexivity.
Defined.


Lemma legal_move_geometry_witness : piece_geometry W "N" 7 1 5 2.
Proof.
  apply (legal_move_geometry new_game "N" 7 1 5 2);
    [unfold on_board; lia | unfold on_board; lia | reflexivity].
Defined.

Lemma legal_target_free_witness : target_free init_board "N" 5 2.
Proof.
  destruct (legal_target_free new_game "N" 7 1 5 2) as [(_ & _ & H)|H];
    [reflexivity | discriminate H | exact H].
Defined.

Lemma sliding_path_clear_witness :
  path_clear (_board (snd (play arabic_indic new_game
                             [(str "a2", str "a4"); (str "a7", str "a5")]))) 7 0 5 0.
Proof.
  apply (sliding_path_clear _ "R" 7 0 5 0);
    [unfold on_board; lia | unfold on_board; lia | vm_compute; reflexivity | left; reflexivity].
Defined.

Lemma stationary_move_rejected_witness :
  make_move arabic_indic (str "c1") (str "c1") new_game = (Ret false, new_game).
Proof. apply (stationary_move_rejected arabic_indic new_game (str "c1") wf_new_game). reflexivity. Defined.

Lemma make_move_terminates_witness :
  exists out, fst (make_move arabic_indic (str "c1") (str "a3") new_game) = out /\
              ((exists v, out = Ret v) \/ (exists e, out = Raise e)).
Proof.
  apply (proj2 (make_move_terminates arabic_indic) new_game (str "c1") (str "a3") wf_new_game).
Defined.

Lemma explosion_spares_pawns_witness :
  exists self',
    _explosion 6 4 new_game = (Ret tt, self') /\
    count_on_board "P" (_board self') = 8%nat.
Proof.
  destruct (explosion_spares_pawns new_game 6 4 wf_new_game) as (self' & Hrun & Hpawn & _);
    [lia | lia |].
  exists self'. split; [exact Hrun|]. by rewrite (Hpawn "P"%char).
Defined.

Lemma explosion_idempotent_witness :
  exists self',
    _explosion 7 4 new_game = (Ret tt, self') /\
    _explosion 7 4 self' = (Ret tt, self').
Proof. apply (explosion_idempotent new_game 7 4 wf_new_game); lia. Defined.

Lemma make_move_never_adds_witness :
  (count_on_board "Q" (_board (snd (make_move arabic_indic (str "b1") (str "d2") new_game)))
   <= 1)%nat.
Proof.
  apply (proj1 (make_move_never_adds arabic_indic new_game (str "b1") (str "d2") _ _ wf_new_game
                  (surjective_pairing _)) "Q"%char).
  discriminate.
Defined.

Lemma game_ends_only_by_king_loss_witness :
  (count_on_board "K" (_board (snd (make_move arabic_indic (str "b1") (str "d2") new_game)))
   + count_on_board "k" (_board (snd (make_move arabic_indic (str "b1") (str "d2") new_game)))
   < 1 + 1)%nat.
Proof.
  apply (game_ends_only_by_king_loss arabic_indic new_game (str "b1") (str "d2") _ _
           wf_new_game eq_refl (surjective_pairing _)).
  vm_compute. discriminate.
Defined.

Lemma board_letters_invariant_witness :
  wf_board (_board (snd (make_move arabic_indic (str "b1") (str "d2") new_game))) /\
  piece_letter "R" = true.
Proof.
  destruct (board_letters_invariant arabic_indic
              (snd (make_move arabic_indic (str "b1") (str "d2") new_game))
              (reach_move arabic_indic new_game (str "b1") (str "d2") (reach_new arabic_indic)))
    as [Hwf Hletters].
  split; [exact Hwf|]. apply (Hletters 7%nat 0%nat). reflexivity.
Defined.

Lemma capture_leaves_witness :
  getitem2 (_board (snd (make_move arabic_indic (str "b1") (str "d2") new_game))) 6 3
  = Ret " "%char.
Proof.
  destruct (capture_leaves arabic_indic new_game (str "b1") (str "d2")
              (snd (make_move arabic_indic (str "b1") (str "d2") new_game)) 6 3 "P"
              wf_new_game) as (sr & sc & piece & Es & Hp & _ & Hdest);
    [reflexivity | reflexivity | reflexivity | discriminate |].
  injection Es as <- <-. injection Hp as <-. exact Hdest.
Defined.

Lemma print_board_layout_witness :
  String.get (16 * 7 + 2 * 4) (print_board new_game) = Some "K"%char.
Proof.
  apply (proj2 (print_board_layout new_game wf_new_game) 7%nat 4%nat "K"%char). reflexivity.
Defined.

Lemma print_board_injective_witness :
  _board (with_turn new_game B) = _board new_game.
Proof.
  apply (print_board_injective (with_turn new_game B) new_game wf_new_game wf_new_game).
  reflexivity.
Defined.

Lemma only_own_pieces_move_witness :
  exists start_row start_col piece,
    _convert_square_to_indices arabic_indic (str "e2") = Ret (start_row, start_col) /\
    getitem2 (_board new_game) start_row start_col = Ret piece /\
    piece <> " "%char /\
    ((_current_turn new_game = W /\ isupper piece = true) \/
     (_current_turn new_game = B /\ islower piece = true)).
Proof.
  apply (only_own_pieces_move arabic_indic new_game (str "e2") (str "e4")
           (snd (make_move arabic_indic (str "e2") (str "e4") new_game))).
  reflexivity.
Defined.
